(** * Dual-Encoder: the context-response pair builder of [nlp.py]

    A shallow embedding of class [ContextResponse] (nlp.py, lines 116-202):
    the bounded pool of negative candidates (a [collections.deque] with
    [maxlen]), the per-call protocol of [__call__] (carry-over insertion,
    warm-up, end-of-pass replay) and the sampling loop of [create_pairs].

    Python integers are unbounded, so every integer of the source is a [Z]
    (lengths and loop counters that the source keeps non-negative are [nat]).
    [__call__] and [create_pairs] are generators: their bodies run as the
    caller pulls pairs out of them.  The embedding describes a generator that
    is consumed to its end: a run is the final object state, the pairs
    yielded in order, and how the generator finished (it returned, or an
    exception escaped it).  The module-level pseudo-random generator is an
    arbitrary sequence [rnd] of naturals, the k-th call of
    [random.randrange(n)] returning [rnd k mod n]; statements that hold for
    every [rnd] hold for every behaviour of [random].

    The two other classes of the file, [RecordStream] (text files) and
    [ProgressTracker], follow the builder, each with the conventions of
    its embedding. *)

From stdpp Require Import base decidable option numbers list strings.

Set Default Proof Using "Type".

(** ** Python sequence operations *)

Module Py.
Section Seq.
Context {A : Type}.
Implicit Types (l : list A) (k a b : Z).

(** An index or a slice bound counted from the end when negative. *)
Definition from_end l k : Z :=
  if (k <? 0)%Z then (k + Z.of_nat (length l))%Z else k.

(** [l[:k]] *)
Definition slice_to l k : list A :=
  take (Z.to_nat (from_end l k)) l.

(** [l[a:b]] *)
Definition slice l a b : list A :=
  drop (Z.to_nat (from_end l a)) (take (Z.to_nat (from_end l b)) l).

(** [l[k]]; [None] stands for [IndexError: list index out of range]. *)
Definition index l k : option A :=
  if (from_end l k <? 0)%Z then None else l !! Z.to_nat (from_end l k).

(** [len(l)] *)
Definition len l : Z := Z.of_nat (length l).
End Seq.
End Py.

(** ** [collections.deque] with a [maxlen]

    The deque is the list of its elements from left to right; [maxlen] is
    kept by the owner (here, [buffer_size]). *)

Module Deque.
Section Deque.
Context {A : Type}.
Implicit Types (d : list A) (maxlen : Z).

(** [d.append(x)]: a full deque drops its leftmost element, and a deque
    of [maxlen] 0 stays empty. *)
Definition append maxlen (x : A) d : list A :=
  if (Z.of_nat (length d) <? maxlen)%Z then d ++ [x]
  else match d with
       | [] => []
       | _ :: d' => d' ++ [x]
       end.

(** [d.extend(xs)] appends the elements of [xs] one by one. *)
Definition extend maxlen (xs : list A) d : list A :=
  foldl (λ acc x, append maxlen x acc) d xs.

(** [d.pop()]: the rightmost element and the rest; [None] stands for
    [IndexError: pop from an empty deque]. *)
Fixpoint pop d : option (A * list A) :=
  match d with
  | [] => None
  | x :: d' =>
      match pop d' with
      | None => Some (x, [])
      | Some (y, r) => Some (y, x :: r)
      end
  end.

(** One step of rotation to the right: [d.appendleft(d.pop())]. *)
Definition rotate1 d : list A :=
  match pop d with
  | None => d
  | Some (x, r) => x :: r
  end.

(** [d.rotate(n)] for [n >= 0]. *)
Definition rotate (n : nat) d : list A := Nat.iter n rotate1 d.
End Deque.
End Deque.

(** ** The object state *)

Inductive exn : Set :=
  | AssertionError        (* a failed [assert] of [__init__] *)
  | ValueError            (* [deque(maxlen=n)] with n < 0, [randrange(n)] with n <= 0 *)
  | ListIndexError        (* [dialogue[k]] out of range *)
  | PoolTooSmall          (* the [IndexError] re-raised at line 188 *)
  | EmptyPop              (* [IndexError] of the [pop()] of line 193 *)
  | LoopDetected.         (* the [Exception] of line 196 *)

Global Instance exn_eq_dec : EqDecision exn.
Proof. solve_decision. Defined.

Section Builder.
Context {U : Type} `{!EqDecision U}.

(** A dialogue is a list of utterances. *)
Local Abbreviation Dialogue := (list U).

Record ContextResponse : Type := mkContextResponse {
  total_dialogues : Z;
  context_size : Z;
  buffer_size : Z;
  num_negative : Z;
  buffer : list U;
  initial_samples : list Dialogue;
  prev_utterances : list U;
  counter : Z
}.

Record Pair : Type := mkPair {
  context : list U;
  response : U;
  label : Z
}.

(** [__init__] (lines 123-133). *)
Definition __init__ (total_dialogues context_size buffer_size num_negative : Z)
  : exn + ContextResponse :=
  if negb (num_negative <? buffer_size)%Z then inl AssertionError
  else if negb (buffer_size <=? total_dialogues)%Z then inl AssertionError
  else if (buffer_size <? 0)%Z then inl ValueError
  else inr {| total_dialogues := total_dialogues;
              context_size := context_size;
              buffer_size := buffer_size;
              num_negative := if (num_negative =? 0)%Z then 1%Z else num_negative;
              buffer := [];
              initial_samples := [];
              prev_utterances := [];
              counter := 0 |}.

Definition set_buffer (b : list U) (s : ContextResponse) : ContextResponse :=
  {| total_dialogues := total_dialogues s; context_size := context_size s;
     buffer_size := buffer_size s; num_negative := num_negative s;
     buffer := b;
     initial_samples := initial_samples s;
     prev_utterances := prev_utterances s; counter := counter s |}.

Definition set_initial_samples (l : list Dialogue) (s : ContextResponse)
  : ContextResponse :=
  {| total_dialogues := total_dialogues s; context_size := context_size s;
     buffer_size := buffer_size s; num_negative := num_negative s;
     buffer := buffer s;
     initial_samples := l;
     prev_utterances := prev_utterances s; counter := counter s |}.

Definition set_prev_utterances (p : list U) (s : ContextResponse)
  : ContextResponse :=
  {| total_dialogues := total_dialogues s; context_size := context_size s;
     buffer_size := buffer_size s; num_negative := num_negative s;
     buffer := buffer s;
     initial_samples := initial_samples s;
     prev_utterances := p; counter := counter s |}.

Definition set_counter (c : Z) (s : ContextResponse) : ContextResponse :=
  {| total_dialogues := total_dialogues s; context_size := context_size s;
     buffer_size := buffer_size s; num_negative := num_negative s;
     buffer := buffer s;
     initial_samples := initial_samples s;
     prev_utterances := prev_utterances s; counter := c |}.

(** ** Generators

    The world a generator runs in: the object and the number of values
    already taken from the pseudo-random sequence. *)

Record World : Type := mkWorld { self : ContextResponse; rng : nat }.

Inductive outcome (A : Type) : Type :=
  | Returned (a : A)
  | Raised (e : exn).
Global Arguments Returned {A} a.
Global Arguments Raised {A} e.

Record Run (A : Type) : Type := mkRun {
  final : World;
  emitted : list Pair;
  result : outcome A
}.
Global Arguments mkRun {A} _ _ _.
Global Arguments final {A} _.
Global Arguments emitted {A} _.
Global Arguments result {A} _.

Definition Gen (A : Type) : Type := World → Run A.

Definition gen_ret {A} (a : A) : Gen A := λ w, mkRun w [] (Returned a).

Definition gen_bind {A B} (k : A → Gen B) (m : Gen A) : Gen B := λ w,
  let r := m w in
  match result r with
  | Returned a =>
      let r' := k a (final r) in
      mkRun (final r') (emitted r ++ emitted r') (result r')
  | Raised e => mkRun (final r) (emitted r) (Raised e)
  end.

Global Instance Gen_ret : MRet Gen := @gen_ret.
Global Instance Gen_bind : MBind Gen := @gen_bind.

Definition yield (p : Pair) : Gen unit := λ w, mkRun w [p] (Returned tt).
Definition raise {A} (e : exn) : Gen A := λ w, mkRun w [] (Raised e).
Definition get_self : Gen ContextResponse := λ w, mkRun w [] (Returned (self w)).
Definition put_buffer (b : list U) : Gen unit := λ w,
  mkRun (mkWorld (set_buffer b (self w)) (rng w)) [] (Returned tt).

(** [for x in xs: body(x)] *)
Fixpoint for_each {A} (xs : list A) (body : A → Gen unit) : Gen unit :=
  match xs with
  | [] => mret tt
  | x :: xs' => body x ;; for_each xs' body
  end.

Section Sampling.
Context (rnd : nat → nat).

(** [random.randrange(n)] *)
Definition randrange (n : Z) : Gen nat := λ w,
  if (n <=? 0)%Z then mkRun w [] (Raised ValueError)
  else mkRun (mkWorld (self w) (S (rng w))) []
             (Returned (rnd (rng w) mod Z.to_nat n)).

(** [self.buffer.rotate(random.randrange(self.buffer_size))] *)
Definition buffer_rotate : Gen unit :=
  s ← get_self;
  r ← randrange (buffer_size s);
  s ← get_self;
  put_buffer (Deque.rotate r (buffer s)).

(** [self.buffer.append(x)] *)
Definition buffer_append (x : U) : Gen unit :=
  s ← get_self;
  put_buffer (Deque.append (buffer_size s) x (buffer s)).

(** [self.buffer.pop()], raising [e] on an empty deque. *)
Definition buffer_pop (e : exn) : Gen U :=
  s ← get_self;
  match Deque.pop (buffer s) with
  | None => raise e
  | Some (x, b) => put_buffer b ;; mret x
  end.

(** [negative in context or negative == response] *)
Definition collides (context : list U) (response negative : U) : bool :=
  bool_decide (negative ∈ context) || bool_decide (negative = response).

(** The [while] loop of lines 190-194; returns the last candidate and
    what is left of [loop_c]. *)
Fixpoint retry (context : list U) (response : U) (loop_c : nat)
    (negative : U) : Gen (U * nat) :=
  match loop_c with
  | O => mret (negative, O)
  | S c =>
      if collides context response negative then
        buffer_append negative ;;
        buffer_rotate ;;
        negative' ← buffer_pop EmptyPop;
        retry context response c negative'
      else mret (negative, loop_c)
  end.

(** The body of the [for _ in range(self.num_negative)] loop, lines
    184-199; returns what is left of [loop_c]. *)
Definition draw (context : list U) (response : U) (loop_c : nat) : Gen nat :=
  buffer_rotate ;;
  negative ← buffer_pop PoolTooSmall;
  nc ← retry context response loop_c negative;
  match nc.2 with
  | O => raise LoopDetected
  | S _ => yield (mkPair context nc.1 0) ;; mret nc.2
  end.

(** [for _ in range(n)] around [draw], threading [loop_c]. *)
Fixpoint draws (context : list U) (response : U) (n loop_c : nat) : Gen unit :=
  match n with
  | O => mret tt
  | S n' =>
      loop_c' ← draw context response loop_c;
      draws context response n' loop_c'
  end.

(** The body of the [for i in range(...)] loop, lines 178-202. *)
Definition window (dialogue : Dialogue) (i : nat) : Gen unit :=
  s ← get_self;
  let context := Py.slice dialogue (Z.of_nat i) (Z.of_nat i + context_size s) in
  match Py.index dialogue (Z.of_nat i + context_size s) with
  | None => raise ListIndexError
  | Some response =>
      s ← get_self;
      draws context response (Z.to_nat (num_negative s)) (length (buffer s)) ;;
      yield (mkPair context response 1)
  end.

(** [create_pairs] (lines 170-202). *)
Definition create_pairs (dialogue : Dialogue) : Gen unit :=
  s ← get_self;
  if bool_decide (dialogue = []) || negb (context_size s <? Py.len dialogue)%Z
  then mret tt
  else for_each (seq 0 (Z.to_nat (Py.len dialogue - context_size s)))
                (window dialogue).

(** Line 149: the carry-over of the previous call enters the pool. *)
Definition carry_over (s : ContextResponse) : ContextResponse :=
  set_buffer
    (Deque.extend (buffer_size s)
       (Py.slice_to (prev_utterances s)
          (Py.len (prev_utterances s) `min` (buffer_size s - Py.len (buffer s)))%Z)
       (buffer s)) s.

(** Line 150: the carry-over for the next call. *)
Definition next_prev (dialogue : Dialogue) (s : ContextResponse)
  : ContextResponse :=
  set_prev_utterances
    (Py.slice_to dialogue
       (((Py.len dialogue - context_size s) * num_negative s)
          `min` Py.len dialogue)%Z) s.

(** Lines 152-155: the pool is filled from the tail of the dialogue;
    [i] counts down from [len(dialogue)]. *)
Fixpoint warmup_fill (maxlen : Z) (dialogue : Dialogue) (i : nat)
    (b : list U) : list U :=
  match i with
  | O => b
  | S i' =>
      if (Py.len b <? maxlen)%Z then
        match dialogue !! i' with
        | Some u => warmup_fill maxlen dialogue i' (Deque.append maxlen u b)
        | None => b
        end
      else b
  end.

(** [for dialogue in dialogues: yield from f(dialogue)]; [None] when a
    sub-call does not finish. *)
Fixpoint replay (f : Dialogue → World → option (Run unit))
    (dialogues : list Dialogue) (w : World) : option (Run unit) :=
  match dialogues with
  | [] => Some (mkRun w [] (Returned tt))
  | d :: rest =>
      match f d w with
      | None => None
      | Some r =>
          match result r with
          | Raised e => Some r
          | Returned _ =>
              match replay f rest (final r) with
              | None => None
              | Some r' =>
                  Some (mkRun (final r') (emitted r ++ emitted r') (result r'))
              end
          end
      end
  end.

(** The runs of the sub-calls of a replay, in order: each starts in the
    world the one before left, and none starts after an exception. *)
Fixpoint sub_runs (f : Dialogue → World → option (Run unit))
    (dialogues : list Dialogue) (w : World) : list (Run unit) :=
  match dialogues with
  | [] => []
  | d :: rest =>
      match f d w with
      | None => []
      | Some r =>
          r :: match result r with
               | Raised _ => []
               | Returned _ => sub_runs f rest (final r)
               end
      end
  end.

(** Lines 148-150, common to the three branches. *)
Definition begin_call (dialogue : Dialogue) (s : ContextResponse)
  : ContextResponse :=
  next_prev dialogue (carry_over (set_counter (counter s + 1) s)).

(** [__call__] (lines 142-168), consumed to its end.  [fuel] bounds the
    depth of the recursion of line 166; [None] when it is not enough. *)
Fixpoint __call__ (fuel : nat) (dialogue : Dialogue) (w : World)
  : option (Run unit) :=
  let s := begin_call dialogue (self w) in
  if (Py.len (buffer s) <? buffer_size s)%Z then
    let b := warmup_fill (buffer_size s) dialogue (length dialogue) (buffer s) in
    let s := set_buffer b s in
    let s := set_initial_samples (initial_samples s ++ [dialogue]) s in
    Some (mkRun (mkWorld s (rng w)) [] (Returned tt))
  else if (counter s =? total_dialogues s)%Z then
    match fuel with
    | O => None
    | S fuel' =>
        let dialogues := dialogue :: initial_samples s in
        let s := set_initial_samples [] s in
        let s := set_counter 0 s in
        replay (__call__ fuel') dialogues (mkWorld s (rng w))
    end
  else Some (create_pairs dialogue (mkWorld s (rng w))).

(** A sequence of top-level calls, one per dialogue supplied by the
    record source; stops at the first exception. *)
Definition calls (fuel : nat) : list Dialogue → World → option (Run unit) :=
  replay (__call__ fuel).

(** *** The sampling procedure in the words of the specification

    Section 4.3a of the specification describes one draw as: set
    [retries_remaining] to the current pool size; draw; while the candidate
    collides and [retries_remaining > 0], push it back, draw again and
    decrement; fail with the deadlock error if [retries_remaining] reached 0
    without an acceptable candidate; otherwise emit.  [spec_draw] follows
    these words, to be compared with [draw]. *)



End Sampling.

(** ** Vocabulary of the statements *)

(** The invariant of a deque: it never holds more than [maxlen] elements. *)
Definition pool_bounded (s : ContextResponse) : Prop :=
  (Py.len (buffer s) ≤ buffer_size s)%Z.

(** The context and the true response of the window that starts at [i],
    for a context size [cs]. *)
Definition window_context (cs : Z) (d : Dialogue) (i : nat) : list U :=
  Py.slice d (Z.of_nat i) (Z.of_nat i + cs).

Definition window_response (cs : Z) (d : Dialogue) (i : nat) : option U :=
  Py.index d (Z.of_nat i + cs).

(** Number of windows of a dialogue, and of draws per window. *)
Definition windows (cs : Z) (d : Dialogue) : nat := Z.to_nat (Py.len d - cs).

Definition negatives (s : ContextResponse) : nat := Z.to_nat (num_negative s).

(** A response that may stand as a negative of window [i]. *)
Definition acceptable (cs : Z) (d : Dialogue) (i : nat) (y : U) : Prop :=
  (y ∉ window_context cs d i) ∧
  ∃ r, window_response cs d i = Some r ∧ y ≠ r.

(** Sampling touches the pool and the pseudo-random sequence only. *)
Definition pool_step (w w' : World) : Prop :=
  self w' = set_buffer (buffer (self w')) (self w) ∧ rng w ≤ rng w'.

(** The pairs of one window, given the negatives drawn for it. *)
Definition negative_pairs (context : list U) (negs : list U) : list Pair :=
  (λ x, mkPair context x 0) <$> negs.

Definition window_pairs (cs : Z) (d : Dialogue) (i : nat)
    (negs : list U) : list Pair :=
  negative_pairs (window_context cs d i) negs ++
  match window_response cs d i with
  | Some r => [mkPair (window_context cs d i) r 1]
  | None => []
  end.

(** A generator that keeps the pool within its bound and lets no
    [IndexError] of the inner [pop()] escape. *)
Definition safe {A} (m : Gen A) : Prop :=
  ∀ w, pool_bounded (self w) →
    pool_bounded (self (final (m w))) ∧ result (m w) ≠ Raised EmptyPop.

(** The configuration is fixed at construction. *)
Definition same_config (s s' : ContextResponse) : Prop :=
  total_dialogues s' = total_dialogues s ∧ context_size s' = context_size s ∧
  buffer_size s' = buffer_size s ∧ num_negative s' = num_negative s.

(** Number of dialogues held back for the end of the pass. *)
Definition deferred (w : World) : nat := length (initial_samples (self w)).

(** The state in which a call finds the object once lines 148-150 have run,
    and the three branches of [__call__]. *)
Definition warmup (s : ContextResponse) : Prop :=
  (Py.len (buffer s) < buffer_size s)%Z.

Definition flush (s : ContextResponse) : Prop :=
  ¬ warmup s ∧ counter s = total_dialogues s.

Definition steady (s : ContextResponse) : Prop :=
  ¬ warmup s ∧ counter s ≠ total_dialogues s.

End Builder.

Global Arguments ContextResponse U : clear implicits.
Global Arguments Pair U : clear implicits.
Global Arguments World U : clear implicits.


(** ** Pseudo-random sequences of the examples *)

(** The sequence that always answers [n]. *)
Definition rnd_const (n : nat) : nat → nat := λ _, n.

(** The sequence that answers the elements of [l] in turn, then 0. *)
Definition rnd_list (l : list nat) : nat → nat := λ k, nth k l 0.

(** ** Objects of the examples, with strings for utterances *)

Section Examples.
Local Open Scope string_scope.




(** [ContextResponse(9, 1, 2, 1)] as constructed, after a first call on
    [A, X], and as the second call, on [A, B], finds it: two utterances in
    the pool, one of which is the context of the window. *)
Definition fresh_9_1_2_1 : ContextResponse string :=
  mkContextResponse 9 1 2 1 [] [] [] 0.

Definition warm_9_1_2_1 : ContextResponse string :=
  mkContextResponse 9 1 2 1 ["X"; "A"] [["A"; "X"]] ["A"] 1.

Definition last_retry_world : World string :=
  mkWorld (mkContextResponse 9 1 2 1 ["X"; "A"] [["A"; "X"]] ["A"] 2) 0.

(** The same object after a first call on [B, A], as a second call on
    [A, B] finds it: the utterances of the pool all occur in the window
    [A] -> [B]. *)
Definition degenerate_9_1_2_1 : ContextResponse string :=
  mkContextResponse 9 1 2 1 ["A"; "B"] [["B"; "A"]] ["B"] 1.

Definition degenerate_world : World string :=
  mkWorld (mkContextResponse 9 1 2 1 ["A"; "B"] [["B"; "A"]] ["A"] 2) 0.

(** [ContextResponse(5, 1, 2, 1)] as constructed, and after a first call on
    the dialogue [A, B, C]. *)
Definition fresh_5_1_2_1 : ContextResponse string :=
  mkContextResponse 5 1 2 1 [] [] [] 0.

Definition warm_5_1_2_1 : ContextResponse string :=
  mkContextResponse 5 1 2 1 ["C"; "B"] [["A"; "B"; "C"]] ["A"; "B"] 1.

(** [ContextResponse(2, 1, 2, 1)] after a first call on [A, B, C]. *)
Definition warm_2_1_2_1 : ContextResponse string :=
  mkContextResponse 2 1 2 1 ["C"; "B"] [["A"; "B"; "C"]] ["A"; "B"] 1.

(** [ContextResponse(3, 1, 3, 1)] as constructed, and after calls on the
    dialogues [A], [B] and [C, D, E]. *)
Definition fresh_3_1_3_1 : ContextResponse string :=
  mkContextResponse 3 1 3 1 [] [] [] 0.

Definition stuck_3_1_3_1 : ContextResponse string :=
  mkContextResponse 3 1 3 1 ["A"; "B"; "E"]
    [["A"]; ["B"]; ["C"; "D"; "E"]] ["C"; "D"] 3.

(** [ContextResponse(5, 3, 4, 1)] as constructed, after a call on [A, B],
    and after a further call on [C]. *)
Definition fresh_5_3_4_1 : ContextResponse string :=
  mkContextResponse 5 3 4 1 [] [] [] 0.

Definition short_5_3_4_1 : ContextResponse string :=
  mkContextResponse 5 3 4 1 ["B"; "A"] [["A"; "B"]] ["A"] 1.

Definition short2_5_3_4_1 : ContextResponse string :=
  mkContextResponse 5 3 4 1 ["B"; "A"; "A"; "C"] [["A"; "B"]; ["C"]] [] 2.

(** [ContextResponse(3, 1, 3, 1)] after calls on [A] and [B]. *)
Definition two_calls_3_1_3_1 : ContextResponse string :=
  mkContextResponse 3 1 3 1 ["A"; "B"] [["A"]; ["B"]] [] 2.

(** [ContextResponse(9, 1, 4, 3)] as constructed, and after a first call on
    [Z, Y, X, W]: three negatives per window. *)
Definition fresh_9_1_4_3 : ContextResponse string :=
  mkContextResponse 9 1 4 3 [] [] [] 0.

Definition warm_9_1_4_3 : ContextResponse string :=
  mkContextResponse 9 1 4 3 ["W"; "X"; "Y"; "Z"] [["Z"; "Y"; "X"; "W"]]
    ["Z"; "Y"; "X"; "W"] 1.

End Examples.

(** ** Accounting for the utterances of the pool *)

Section Accounting.
Context {U : Type} `{!EqDecision U}.

(** The responses of the label-0 pairs of a run, in order: the utterances
    that sampling has taken out of the pool for good. *)
Definition drawn (out : list (Pair U)) : list U :=
  response <$> filter (λ p, label p = 0%Z) out.

(** A run that accounts for every utterance of the pool it started with:
    each is still in the pool or is the response of a label-0 pair, but for
    the candidate that is in hand when the loop exception is raised. *)
Definition accounted {A} (w : World U) (r : Run A) : Prop :=
  pool_bounded (self (final r)) ∧
  match result r with
  | Raised LoopDetected =>
      ∃ y, buffer (self w) ≡ₚ buffer (self (final r)) ++ drawn (emitted r) ++ [y]
  | _ => buffer (self w) ≡ₚ buffer (self (final r)) ++ drawn (emitted r)
  end.

Definition conserving {A} (m : @Gen U A) : Prop :=
  ∀ w, pool_bounded (self w) → accounted w (m w).

(** The label-1 pairs of a run, in order. *)
Definition truths (out : list (Pair U)) : list (Pair U) :=
  filter (λ p, label p = 1%Z) out.

(** The true pairs of the windows [a], ..., [a + n - 1] of a dialogue. *)
Definition positives (cs : Z) (d : list U) (a n : nat) : list (Pair U) :=
  omap (λ i, (λ r, mkPair (window_context cs d i) r 1) <$> window_response cs d i)
       (seq a n).

(** An object all of whose utterances come from the dialogues [seen]. *)
Definition from_corpus (seen : list (list U)) (s : ContextResponse U) : Prop :=
  pool_bounded s ∧
  buffer s ⊆ mjoin seen ∧
  prev_utterances s ⊆ mjoin seen ∧
  initial_samples s ⊆ seen.

End Accounting.

(** * The record stream of [nlp.py], on a text file

    Class [RecordStream] (nlp.py, lines 7-85) with [img_mode] false.  A
    [bytes] object is the list of its bytes, each a [Z]; a file is its
    content, which is taken not to change between the scan of [__init__]
    and an iteration.  Of [mmap.mmap] the embedding has what the class
    uses: the content, the position, [readline], [tell] and [seek].
    [np.random.shuffle] is an arbitrary function [shuffle] that permutes
    its argument.  What the class prints (the progress of the scan) is left
    out.  The loop of [_scan_records] runs on fuel, one unit per line read. *)

Module Stream.

Inductive exn : Set :=
  | EmptyFile             (* [ValueError: cannot mmap an empty file] *)
  | SeekOutOfRange        (* [ValueError: seek out of range] *)
  | UnicodeDecodeError.   (* [line.decode('ascii')] on a byte above 127 *)

(** ** Byte strings *)

Definition newline : Z := 10.

(** The bytes that [bytes.strip()] removes: space, tab, line feed,
    vertical tab, form feed, carriage return. *)
Definition is_space (b : Z) : bool :=
  bool_decide (b ∈ [32; 9; 10; 11; 12; 13]%Z).

Fixpoint lstrip (l : list Z) : list Z :=
  match l with
  | [] => []
  | b :: l' => if is_space b then lstrip l' else l
  end.

(** [l.strip()] *)
Definition strip (l : list Z) : list Z :=
  reverse (lstrip (reverse (lstrip l))).

(** [l.decode('ascii')]: the same characters; [None] stands for
    [UnicodeDecodeError]. *)
Definition decode (l : list Z) : option (list Z) :=
  if forallb (λ b, b <? 128)%Z l then Some l else None.

(** ** The memory map *)

Record mmap : Type := mkMmap {
  data : list Z;
  pos : nat
}.

(** [mmap.mmap(f.fileno(), 0, access=mmap.ACCESS_READ)]: the whole file,
    read from its start; an empty file cannot be mapped. *)
Definition mmap_open (file : list Z) : exn + mmap :=
  match file with
  | [] => inl EmptyFile
  | _ => inr (mkMmap file 0)
  end.

(** The bytes of [l] up to its first newline, included; all of [l] when it
    has none. *)
Fixpoint first_line (l : list Z) : list Z :=
  match l with
  | [] => []
  | b :: l' => if (b =? newline)%Z then [b] else b :: first_line l'
  end.

(** [mm.readline()]: the line at the position, which moves past it; the
    empty string at the end of the map. *)
Definition readline (mm : mmap) : list Z * mmap :=
  let line := first_line (drop (pos mm) (data mm)) in
  (line, mkMmap (data mm) (pos mm + length line)).

(** [mm.tell()] *)
Definition tell (mm : mmap) : nat := pos mm.

(** [mm.seek(offset)], for an unsigned offset. *)
Definition seek (mm : mmap) (offset : nat) : exn + mmap :=
  if offset <=? length (data mm) then inr (mkMmap (data mm) offset)
  else inl SeekOutOfRange.

(** ** The stream *)

Record RecordStream : Type := mkRecordStream {
  source : list Z;               (* the content of the file at the path *)
  log_rate : Z;
  skip_header : option Z;
  offsets : list nat;
  num_records : nat
}.

(** The index at which the slice [l[k:]] starts, [k] being [None] or an
    integer. *)
Definition slice_start {A} (l : list A) (k : option Z) : nat :=
  match k with
  | None => 0
  | Some k => Z.to_nat (Py.from_end l k)
  end.

(** [l[k:]] *)
Definition slice_from {A} (l : list A) (k : option Z) : list A :=
  drop (slice_start l k) l.

(** The loop of lines 76-80: [for line in iter(mm.readline, b'')]. *)
Fixpoint scan_loop (fuel : nat) (mm : mmap) (offs : list nat)
    (num_records : nat) : option (list nat * nat) :=
  match fuel with
  | O => None
  | S fuel =>
      let '(line, mm) := readline mm in
      match line with
      | [] => Some (offs, num_records)
      | _ => scan_loop fuel mm (offs ++ [tell mm]) (S num_records)
      end
  end.

(** [_scan_records], lines 72-85: the offsets kept and the number of
    records; [None] when the fuel runs out. *)
Definition _scan_records (fuel : nat) (file : list Z) (skip : option Z)
    : option (exn + list nat * nat) :=
  match mmap_open file with
  | inl e => Some (inl e)
  | inr mm =>
      match scan_loop fuel mm [] 0 with
      | None => None
      | Some (offs, n) => Some (inr (slice_from offs skip, n))
      end
  end.

(** [np.random.shuffle(l[k:])]: the slice is a view, so that [l] is
    shuffled in place from the start of the slice on. *)
Definition shuffle_from (shuffle : list nat → list nat) (l : list nat)
    (k : option Z) : list nat :=
  take (slice_start l k) l ++ shuffle (slice_from l k).

(** [RecordStream(source, False, log_rate, skip_header)]; a [log_rate]
    of [None] or 0 stands for the default. *)
Definition __init__ (shuffle : list nat → list nat) (fuel : nat)
    (file : list Z) (rate : option Z) (skip : option Z)
    : option (exn + RecordStream) :=
  let rate := match rate with
              | None | Some 0%Z => 100000%Z
              | Some r => r
              end in
  match _scan_records fuel file skip with
  | None => None
  | Some (inl e) => Some (inl e)
  | Some (inr (offs, n)) =>
      Some (inr (mkRecordStream file rate skip (shuffle_from shuffle offs skip) n))
  end.

Definition __len__ (self : RecordStream) : nat := num_records self.

(** The loop of lines 56-60: the records yielded, and the exception that
    ended the loop if one did. *)
Fixpoint iter_loop (mm : mmap) (offs : list nat)
    : list (list Z) * option exn :=
  match offs with
  | [] => ([], None)
  | offset :: offs =>
      match seek mm offset with
      | inl e => ([], Some e)
      | inr mm =>
          let '(line, mm) := readline mm in
          match strip line with
          | [] => iter_loop mm offs
          | _ =>
              match decode line with
              | None => ([], Some UnicodeDecodeError)
              | Some record =>
                  let '(out, e) := iter_loop mm offs in (record :: out, e)
              end
          end
      end
  end.

(** [__iter__], consumed to its end. *)
Definition __iter__ (self : RecordStream) : list (list Z) * option exn :=
  match mmap_open (source self) with
  | inl e => ([], Some e)
  | inr mm => iter_loop mm (offsets self)
  end.

(** ** Vocabulary of the statements *)

(** The lines of a file, each with its newline; the last one may have
    none. *)
Fixpoint lines (l : list Z) : list (list Z) :=
  match l with
  | [] => []
  | b :: l' =>
      if (b =? newline)%Z then [b] :: lines l'
      else match lines l' with
           | [] => [[b]]
           | ln :: lns => (b :: ln) :: lns
           end
  end.

(** The positions at which the lines [lns] end, the first starting at
    [p]. *)
Fixpoint ends (p : nat) (lns : list (list Z)) : list nat :=
  match lns with
  | [] => []
  | ln :: lns => (p + length ln) :: ends (p + length ln) lns
  end.

(** A line that [__iter__] yields: [line.strip()] is not empty. *)
Definition nonblank (l : list Z) : Prop := strip l ≠ [].

Global Instance nonblank_dec l : Decision (nonblank l).
Proof. unfold nonblank. apply _. Defined.

(** The records of a list of lines. *)
Definition records (lns : list (list Z)) : list (list Z) :=
  filter nonblank lns.

(** The line that [readline] gives at the position [o] of a file. *)
Definition line_at (file : list Z) (o : nat) : list Z :=
  first_line (drop o file).

(** The records that are decoded before the first that cannot be. *)
Fixpoint decodable (recs : list (list Z)) : list (list Z) :=
  match recs with
  | [] => []
  | r :: recs =>
      match decode r with
      | Some r => r :: decodable recs
      | None => []
      end
  end.

End Stream.

(** * The progress tracker of [nlp.py]

    Class [ProgressTracker] (nlp.py, lines 87-114).  The readings of the
    clock are values of a type [T] with the subtraction [elapsed]; the
    reading of each call of [timer()] is an argument of the function that
    makes it.  The width of the part of the bar that is done,
    [int(float(counter) / total * 40)], is computed in floating point: it
    is the function [scaled] of the counter and the total.  What is printed
    is a list of lines, each with the values its format is given. *)

Module Progress.
Import Stdlib.Strings.Ascii.

Section Tracker.
Context {T : Type}.
Variable elapsed : T → T → T.
Variable scaled : Z → Z → Z.

Definition progress_bar_width : Z := 40.

Record ProgressTracker : Type := mkProgressTracker {
  rate : Z;
  total : option Z;
  _counter : Z;
  _timer : T;
  duration : option T            (* [None] for the initial 0 *)
}.

(** A line printed: by a call with [done] (line 105), with the bar (line
    112) or without it (line 114). *)
Inductive line : Type :=
  | Summary (counter : Z) (time : T)
  | Bar (counter : Z) (time : T) (bar : list ascii)
  | Count (counter : Z) (time : T).

(** [n * c] for a one-character string [c]: empty when [n <= 0]. *)
Definition times (n : Z) (c : ascii) : list ascii :=
  replicate (Z.to_nat n) c.

(** The bar of line 111. *)
Definition bar (progress : Z) : list ascii :=
  if (progress =? progress_bar_width)%Z
  then times progress "="%char ++ times (progress_bar_width - progress) "-"%char
  else times (progress - 1) "="%char ++ [">"%char]
         ++ times (progress_bar_width - progress) "-"%char.

(** [ProgressTracker(rate, total)] at the clock reading [now]; integer
    arguments, [None] or 0 standing for the defaults. *)
Definition __init__ (now : T) (rate total : option Z) : ProgressTracker :=
  mkProgressTracker
    (match rate with None | Some 0%Z => 1000%Z | Some r => r end)
    (match total with None | Some 0%Z => None | Some t => Some t end)
    0 now None.

Definition __len__ (self : ProgressTracker) : Z := _counter self.

(** [self(done)] at the clock reading [now]: the object after the call and
    the lines printed; [None] stands for the [ZeroDivisionError] of
    [self._counter % self.rate]. *)
Definition __call__ (now : T) (done : bool) (self : ProgressTracker)
    : option (ProgressTracker * list line) :=
  if done then
    let d := elapsed now (_timer self) in
    Some (mkProgressTracker (rate self) (total self) (_counter self)
            (_timer self) (Some d),
          [Summary (_counter self) d])
  else
    let c := (_counter self + 1)%Z in
    let self := mkProgressTracker (rate self) (total self) c (_timer self)
                  (duration self) in
    if (rate self =? 0)%Z then None
    else if ((c mod rate self =? 0) || (c =? 0))%Z then
      match total self with
      | None | Some 0%Z =>
          Some (self, [Count c (elapsed now (_timer self))])
      | Some t =>
          Some (self, [Bar c (elapsed now (_timer self)) (bar (scaled c t))])
      end
    else Some (self, []).

(** A sequence of calls, each with its clock reading and its [done]. *)
Fixpoint run (calls : list (T * bool)) (self : ProgressTracker)
    : option (ProgressTracker * list line) :=
  match calls with
  | [] => Some (self, [])
  | (now, done) :: calls =>
      match __call__ now done self with
      | None => None
      | Some (self, out) =>
          match run calls self with
          | None => None
          | Some (self, out') => Some (self, out ++ out')
          end
      end
  end.

(** The counters of the progress lines printed, in order. *)
Definition reported (out : list line) : list Z :=
  omap (λ l, match l with
             | Summary _ _ => None
             | Bar c _ _ | Count c _ => Some c
             end) out.

End Tracker.
End Progress.

(** * Properties *)

(** ** The deque *)

Section DequeFacts.
Context {A : Type}.
Implicit Types (d r : list A) (x y : A) (maxlen : Z).

Lemma pop_snoc d x : Deque.pop (d ++ [x]) = Some (x, d).
Proof.
  induction d as [|a d IH]; simpl; [done|]. by rewrite IH.
Qed.

Lemma pop_Some d x r : Deque.pop d = Some (x, r) ↔ d = r ++ [x].
Proof.
  split; [|intros ->; apply pop_snoc].
  revert x r. induction d as [|a d IH]; intros x r; simpl; [done|].
  destruct (Deque.pop d) as [[y r']|] eqn:E.
  - intros [= <- <-]. by rewrite (IH y r').
  - intros [= <- <-]. destruct d as [|b d]; [done|].
    simpl in E. by destruct (Deque.pop d) as [[??]|].
Qed.

Lemma pop_None d : Deque.pop d = None ↔ d = [].
Proof.
  destruct d as [|a d]; simpl; [done|].
  by destruct (Deque.pop d) as [[??]|].
Qed.

Lemma pop_length d x r : Deque.pop d = Some (x, r) → length d = S (length r).
Proof. intros ->%pop_Some. rewrite length_app. simpl. lia. Qed.

Lemma rotate1_perm d : Deque.rotate1 d ≡ₚ d.
Proof.
  unfold Deque.rotate1. destruct (Deque.pop d) as [[x r]|] eqn:E; [|done].
  apply pop_Some in E as ->. by rewrite Permutation_app_comm.
Qed.

Lemma rotate_perm n d : Deque.rotate n d ≡ₚ d.
Proof.
  unfold Deque.rotate. induction n as [|n IH]; simpl; [done|].
  by rewrite rotate1_perm.
Qed.

Lemma rotate_length n d : length (Deque.rotate n d) = length d.
Proof. by rewrite rotate_perm. Qed.

Lemma rotate_nil n : Deque.rotate n (@nil A) = [].
Proof. apply Permutation_nil_r. by rewrite rotate_perm. Qed.

Lemma append_room maxlen x d :
  (Py.len d < maxlen)%Z → Deque.append maxlen x d = d ++ [x].
Proof.
  unfold Deque.append, Py.len. intros H.
  by rewrite (proj2 (Z.ltb_lt _ _) H).
Qed.

Lemma append_bounded maxlen x d :
  (Py.len d ≤ maxlen)%Z → (Py.len (Deque.append maxlen x d) ≤ maxlen)%Z.
Proof.
  unfold Deque.append, Py.len. intros H.
  destruct (Z.ltb_spec (Z.of_nat (length d)) maxlen) as [Hlt|Hge].
  - rewrite length_app. simpl. lia.
  - destruct d as [|a d]; simpl in *; [lia|]. rewrite length_app. simpl. lia.
Qed.

Lemma extend_room maxlen xs d :
  (Py.len d + Py.len xs ≤ maxlen)%Z → Deque.extend maxlen xs d = d ++ xs.
Proof.
  unfold Deque.extend. revert d.
  induction xs as [|x xs IH]; intros d H; simpl.
  - by rewrite app_nil_r.
  - unfold Py.len in *. simpl in H.
    rewrite append_room by (unfold Py.len; lia).
    rewrite IH by (rewrite length_app; simpl; lia).
    by rewrite <- app_assoc.
Qed.

Lemma extend_bounded maxlen xs d :
  (Py.len d ≤ maxlen)%Z → (Py.len (Deque.extend maxlen xs d) ≤ maxlen)%Z.
Proof.
  unfold Deque.extend. revert d.
  induction xs as [|x xs IH]; intros d H; simpl; [done|].
  by apply IH, append_bounded.
Qed.

End DequeFacts.

(** ** Lists cut in chunks of one length *)

Section Chunks.
Context {X : Type}.
Implicit Types (chunks : list (list X)) (tail : list X).

Lemma chunks_length m chunks :
  Forall (λ l, length l = m) chunks → length (mjoin chunks) = length chunks * m.
Proof.
  intros H. rewrite length_join, (sum_list_fmap_same m) by done. lia.
Qed.

Lemma chunks_lookup m chunks tail j x :
  Forall (λ l, length l = S m) chunks →
  length tail ≤ m →
  (mjoin chunks ++ tail) !! j = Some x →
  (∃ l, chunks !! (j / S m) = Some l ∧ l !! (j mod S m) = Some x) ∨
  (j / S m = length chunks ∧ tail !! (j mod S m) = Some x).
Proof.
  intros Hall Htail [Hj|[Hlen Hj]]%lookup_app_Some.
  - left. apply (join_lookup_Some_same_length (S m)) in Hj as (q & l & i & Hq & Hi & ->);
      [|done].
    assert (i < S m).
    { apply lookup_lt_Some in Hi.
      by rewrite (Forall_lookup_1 _ _ _ _ Hall Hq) in Hi. }
    exists l.
    rewrite Nat.div_add_l, Nat.div_small, Nat.add_0_r by lia.
    by rewrite Nat.add_comm, Nat.Div0.mod_add, Nat.mod_small by lia.
  - right. rewrite (chunks_length (S m)) in Hlen, Hj by done.
    pose proof (lookup_lt_Some _ _ _ Hj).
    replace j with (length chunks * S m + (j - length chunks * S m)) at 1 2 by lia.
    rewrite Nat.div_add_l, Nat.div_small, Nat.add_0_r by lia.
    by rewrite Nat.add_comm, Nat.Div0.mod_add, Nat.mod_small by lia.
Qed.

End Chunks.

(** ** Running generators *)

Section GenFacts.
Context {U : Type} `{!EqDecision U}.
Implicit Types (w : World U) (s : ContextResponse U) (x y : U).

Lemma bind_run {A B} (m : Gen A) (k : A → Gen B) w :
  (m ≫= k) w =
    match result (m w) with
    | Returned a =>
        mkRun (final (k a (final (m w))))
              (emitted (m w) ++ emitted (k a (final (m w))))
              (result (k a (final (m w))))
    | Raised e => mkRun (final (m w)) (emitted (m w)) (Raised e)
    end.
Proof. reflexivity. Qed.

Lemma run_eta {A} (r : Run (U:=U) A) :
  mkRun (final r) (emitted r) (result r) = r.
Proof. by destruct r. Qed.

Lemma pool_step_refl w : pool_step w w.
Proof. split; [by destruct w as [[]]|done]. Qed.

Lemma pool_step_trans w1 w2 w3 :
  pool_step w1 w2 → pool_step w2 w3 → pool_step w1 w3.
Proof.
  intros [H1 ?] [H2 ?]. split; [|lia].
  rewrite H2, H1. reflexivity.
Qed.

Lemma pool_step_put w b n :
  rng w ≤ n → pool_step w (mkWorld (set_buffer b (self w)) n).
Proof. intros. split; [reflexivity|done]. Qed.

Lemma set_buffer_self s : set_buffer (buffer s) s = s.
Proof. by destruct s. Qed.

Lemma set_buffer_twice (b b' : list U) s :
  set_buffer b (set_buffer b' s) = set_buffer b s.
Proof. reflexivity. Qed.

Section WithRandom.
Context (rnd : nat → nat).

Lemma buffer_append_run x w :
  buffer_append x w =
    mkRun (mkWorld (set_buffer (Deque.append (buffer_size (self w)) x
                                  (buffer (self w))) (self w)) (rng w))
          [] (Returned ()).
Proof. reflexivity. Qed.

Lemma buffer_rotate_run w :
  buffer_rotate rnd w =
    if (buffer_size (self w) <=? 0)%Z then mkRun w [] (Raised ValueError)
    else mkRun (mkWorld (set_buffer
                  (Deque.rotate (rnd (rng w) mod Z.to_nat (buffer_size (self w)))
                     (buffer (self w))) (self w)) (S (rng w)))
               [] (Returned ()).
Proof.
  unfold buffer_rotate. rewrite bind_run. simpl. rewrite bind_run.
  unfold randrange. simpl.
  by destruct (buffer_size (self w) <=? 0)%Z.
Qed.

Lemma buffer_pop_run e w :
  buffer_pop e w =
    match Deque.pop (buffer (self w)) with
    | None => mkRun w [] (Raised e)
    | Some (x, b) =>
        mkRun (mkWorld (set_buffer b (self w)) (rng w)) [] (Returned x)
    end.
Proof.
  unfold buffer_pop. rewrite bind_run. simpl.
  by destruct (Deque.pop (buffer (self w))) as [[x b]|].
Qed.

(** One turn of the [while] loop. *)
Lemma retry_turn context response c x w :
  collides context response x = true →
  retry rnd context response (S c) x w =
    let s := self w in
    let b1 := Deque.append (buffer_size s) x (buffer s) in
    if (buffer_size s <=? 0)%Z
    then mkRun (mkWorld (set_buffer b1 s) (rng w)) [] (Raised ValueError)
    else
      let b2 := Deque.rotate (rnd (rng w) mod Z.to_nat (buffer_size s)) b1 in
      match Deque.pop b2 with
      | None => mkRun (mkWorld (set_buffer b2 s) (S (rng w))) [] (Raised EmptyPop)
      | Some (y, b3) =>
          retry rnd context response c y (mkWorld (set_buffer b3 s) (S (rng w)))
      end.
Proof.
  intros Hc. simpl. rewrite Hc.
  rewrite bind_run, buffer_append_run. simpl.
  rewrite bind_run, buffer_rotate_run. simpl.
  destruct (buffer_size (self w) <=? 0)%Z; [done|]. simpl.
  rewrite bind_run, buffer_pop_run. simpl.
  destruct (Deque.pop _) as [[y b3]|]; [|done]. simpl.
  by destruct (retry _ _ _ _ _ _) as [? ? []].
Qed.

Lemma retry_stop context response c x w :
  collides context response x = false →
  retry rnd context response c x w = mkRun w [] (Returned (x, c)).
Proof. intros Hc. destruct c; simpl; [done|]. by rewrite Hc. Qed.

Lemma retry_zero context response x w :
  retry rnd context response 0 x w = mkRun w [] (Returned (x, 0)).
Proof. reflexivity. Qed.

(** The loop yields nothing, touches the pool only, and leaves with a
    positive [loop_c] only on a candidate that does not collide. *)
Lemma retry_sound context response c x w :
  let r := retry rnd context response c x w in
  emitted r = [] ∧ pool_step w (final r) ∧
  ∀ y c', result r = Returned (y, c') →
    c' ≤ c ∧ (c' ≠ 0 → collides context response y = false).
Proof.
  revert x w. induction c as [|c IH]; intros x w.
  { rewrite retry_zero. simpl. split_and!; [done|apply pool_step_refl|].
    intros y c' [= <- <-]. lia. }
  destruct (collides context response x) eqn:Hc.
  - rewrite retry_turn by done. simpl.
    destruct (buffer_size (self w) <=? 0)%Z; simpl.
    { split_and!; [done|by apply pool_step_put|done]. }
    destruct (Deque.pop _) as [[y b3]|]; simpl.
    2:{ split_and!; [done|apply pool_step_put; lia|done]. }
    destruct (IH y (mkWorld (set_buffer b3 (self w)) (S (rng w))))
      as (He & Hs & Hr).
    split_and!; [done| |].
    + eapply pool_step_trans; [|exact Hs]. apply pool_step_put. lia.
    + intros y' c' Hy. destruct (Hr _ _ Hy). split; [lia|done].
  - rewrite retry_stop by done. simpl.
    split_and!; [done|apply pool_step_refl|].
    by intros y c' [= <- <-].
Qed.

(** One draw, step by step. *)
Lemma draw_run context response c w :
  draw rnd context response c w =
    let s := self w in
    if (buffer_size s <=? 0)%Z then mkRun w [] (Raised ValueError)
    else
      let b1 := Deque.rotate (rnd (rng w) mod Z.to_nat (buffer_size s)) (buffer s) in
      match Deque.pop b1 with
      | None => mkRun (mkWorld (set_buffer b1 s) (S (rng w))) [] (Raised PoolTooSmall)
      | Some (x, b2) =>
          let r := retry rnd context response c x
                     (mkWorld (set_buffer b2 s) (S (rng w))) in
          match result r with
          | Returned (y, S c') =>
              mkRun (final r) [mkPair context y 0] (Returned (S c'))
          | Returned (y, O) => mkRun (final r) [] (Raised LoopDetected)
          | Raised e => mkRun (final r) [] (Raised e)
          end
      end.
Proof.
  unfold draw. rewrite bind_run, buffer_rotate_run. simpl.
  destruct (buffer_size (self w) <=? 0)%Z; [done|]. simpl.
  rewrite bind_run, buffer_pop_run. simpl.
  destruct (Deque.pop _) as [[x b2]|]; [|done]. simpl.
  rewrite bind_run, set_buffer_twice.
  destruct (retry_sound context response c x
              (mkWorld (set_buffer b2 (self w)) (S (rng w)))) as (He & _ & _).
  simpl in He. rewrite He.
  destruct (result (retry _ _ _ _ _ _)) as [[y [|c']]|e]; done.
Qed.

(** A draw yields at most one pair; a pair it yields is a negative of the
    window whose response does not collide. *)
Lemma draw_sound context response c w :
  let r := draw rnd context response c w in
  pool_step w (final r) ∧
  match result r with
  | Returned c' =>
      0 < c' ≤ c ∧
      ∃ y, emitted r = [mkPair context y 0] ∧ collides context response y = false
  | Raised _ => emitted r = []
  end.
Proof.
  rewrite draw_run. simpl.
  destruct (buffer_size (self w) <=? 0)%Z; simpl.
  { split; [apply pool_step_refl|done]. }
  destruct (Deque.pop _) as [[x b2]|]; simpl.
  2:{ split; [apply pool_step_put; lia|done]. }
  destruct (retry_sound context response c x
              (mkWorld (set_buffer b2 (self w)) (S (rng w)))) as (_ & Hs & Hr).
  simpl in Hs, Hr.
  assert (pool_step w (final (retry rnd context response c x
            (mkWorld (set_buffer b2 (self w)) (S (rng w)))))) as Hs'.
  { eapply pool_step_trans; [|exact Hs]. apply pool_step_put. lia. }
  destruct (result (retry _ _ _ _ _ _)) as [[y [|c']]|e]; simpl; [done| |done].
  destruct (Hr y (S c') eq_refl) as [? Hy]. split; [done|].
  split; [lia|]. exists y. split; [done|]. by apply Hy.
Qed.

(** With room for a push-back, the loop runs to its end: it returns, with
    the pool at its size, and each turn took one pseudo-random value. *)
Lemma retry_total context response c x w :
  (Py.len (buffer (self w)) < buffer_size (self w))%Z →
  ∃ y c' b,
    retry rnd context response c x w =
      mkRun (mkWorld (set_buffer b (self w)) (rng w + (c - c'))) []
            (Returned (y, c')) ∧
    c' ≤ c ∧
    length b = length (buffer (self w)) ∧
    b ++ [y] ≡ₚ buffer (self w) ++ [x] ∧
    (c' = 0 ∨ collides context response y = false).
Proof.
  revert x w. induction c as [|c IH]; intros x w Hroom.
  { exists x, 0, (buffer (self w)). rewrite retry_zero, set_buffer_self.
    replace (rng w + (0 - 0)) with (rng w) by lia.
    destruct w. split_and!; auto. }
  destruct (collides context response x) eqn:Hc.
  - rewrite retry_turn by done. simpl.
    assert (0 ≤ Py.len (buffer (self w)))%Z by (unfold Py.len; lia).
    destruct (Z.leb_spec (buffer_size (self w)) 0); [lia|].
    rewrite append_room by done.
    destruct (Deque.pop _) as [[y b3]|] eqn:Hpop.
    2:{ apply pop_None in Hpop.
        apply (f_equal length) in Hpop.
        rewrite rotate_length, length_app in Hpop. simpl in Hpop. lia. }
    assert (b3 ++ [y] ≡ₚ buffer (self w) ++ [x]) as Hperm.
    { apply pop_Some in Hpop. by rewrite <- Hpop, rotate_perm. }
    assert (length b3 = length (buffer (self w))) as Hlen.
    { apply Permutation_length in Hperm. rewrite !length_app in Hperm.
      simpl in Hperm. lia. }
    destruct (IH y (mkWorld (set_buffer b3 (self w)) (S (rng w))))
      as (y' & c' & b & Hrun & Hle & Hlen' & Hperm' & Hfin).
    { simpl. unfold Py.len in *. lia. }
    exists y', c', b. simpl in *. rewrite Hrun.
    split_and!; [f_equal; f_equal; lia|lia|lia| |done].
    by rewrite Hperm'.
  - exists x, (S c), (buffer (self w)). rewrite retry_stop by done.
    rewrite set_buffer_self.
    replace (rng w + (S c - S c)) with (rng w) by lia.
    destruct w. split_and!; auto.
Qed.

Lemma collides_false context response y :
  collides context response y = false ↔ (y ∉ context) ∧ (y ≠ response).
Proof.
  unfold collides. rewrite orb_false_iff, !bool_decide_eq_false. done.
Qed.

Lemma collides_true context response y :
  collides context response y = true ↔ y ∈ context ∨ y = response.
Proof.
  unfold collides. rewrite orb_true_iff, !bool_decide_eq_true. done.
Qed.

(** The draws of one window. *)
Lemma draws_sound context response n c w :
  let r := draws rnd context response n c w in
  pool_step w (final r) ∧
  ∃ negs,
    emitted r = negative_pairs context negs ∧
    Forall (λ y, collides context response y = false) negs ∧
    match result r with
    | Returned _ => length negs = n
    | Raised _ => length negs < n
    end.
Proof.
  revert c w. induction n as [|n IH]; intros c w; simpl.
  { split; [apply pool_step_refl|]. by exists []. }
  rewrite bind_run.
  destruct (draw_sound context response c w) as [Hs Hd]. simpl in Hs, Hd.
  destruct (result (draw _ _ _ _ _)) as [c'|e]; simpl.
  - destruct Hd as (_ & y & -> & Hy).
    destruct (IH c' (final (draw rnd context response c w))) as (Hs' & negs & He & Hn & Hr).
    simpl in *. split; [by eapply pool_step_trans|].
    exists (y :: negs). rewrite He. split_and!; [done|by constructor|].
    destruct (result (draws _ _ _ _ _ _)); simpl; lia.
  - split; [done|]. exists []. rewrite Hd. split_and!; [done|done|simpl; lia].
Qed.

Lemma pool_step_config w w' :
  pool_step w w' →
  context_size (self w') = context_size (self w) ∧
  num_negative (self w') = num_negative (self w) ∧
  buffer_size (self w') = buffer_size (self w) ∧
  total_dialogues (self w') = total_dialogues (self w) ∧
  counter (self w') = counter (self w) ∧
  initial_samples (self w') = initial_samples (self w) ∧
  prev_utterances (self w') = prev_utterances (self w).
Proof. intros [-> _]. done. Qed.

(** One window: its negatives, then its positive. *)
Lemma window_sound d i w :
  let r := window rnd d i w in
  let cs := context_size (self w) in
  pool_step w (final r) ∧
  ∃ negs,
    Forall (acceptable cs d i) negs ∧
    match result r with
    | Returned _ =>
        length negs = negatives (self w) ∧
        is_Some (window_response cs d i) ∧
        emitted r = window_pairs cs d i negs
    | Raised _ =>
        length negs ≤ negatives (self w) ∧
        emitted r = negative_pairs (window_context cs d i) negs
    end.
Proof.
  unfold window. rewrite bind_run. simpl.
  unfold window_pairs, acceptable, window_response, window_context, negatives.
  destruct (Py.index d _) as [resp|] eqn:Hresp; simpl.
  2:{ split; [apply pool_step_refl|]. exists []. split_and!; [done|simpl; lia|done]. }
  rewrite !bind_run. simpl.
  match goal with |- context [draws ?r ?c ?p ?n ?k ?w'] =>
    destruct (draws_sound c p n k w') as (Hs & negs & He & Hn & Hr) end.
  simpl in *.
  destruct (result (draws _ _ _ _ _ _)); simpl.
  - split; [done|]. exists negs. rewrite He. split_and!; [|done|done|done].
    eapply Forall_impl; [exact Hn|]. intros y Hy%collides_false.
    split; [tauto|]. exists resp. tauto.
  - split; [done|]. exists negs. rewrite He. split_and!; [|lia|done].
    eapply Forall_impl; [exact Hn|]. intros y Hy%collides_false.
    split; [tauto|]. exists resp. tauto.
Qed.

(** The windows [a], [a+1], ..., [a+n-1] in this order: complete windows,
    then the negatives of the window in which an exception came up. *)
Lemma windows_sound d n a w :
  let r := for_each (seq a n) (window rnd d) w in
  let cs := context_size (self w) in
  pool_step w (final r) ∧
  ∃ negss tail,
    emitted r =
      mjoin (zip_with (window_pairs cs d) (seq a (length negss)) negss) ++
      negative_pairs (window_context cs d (a + length negss)) tail ∧
    (∀ k negs, negss !! k = Some negs →
       length negs = negatives (self w) ∧
       is_Some (window_response cs d (a + k)) ∧
       Forall (acceptable cs d (a + k)) negs) ∧
    Forall (acceptable cs d (a + length negss)) tail ∧
    match result r with
    | Returned _ => length negss = n ∧ tail = []
    | Raised _ => length negss < n ∧ length tail ≤ negatives (self w)
    end.
Proof.
  revert a w. induction n as [|n IH]; intros a w; simpl.
  { split; [apply pool_step_refl|]. exists [], []. simpl.
    split_and!; try done; intros k negs; by rewrite lookup_nil. }
  rewrite bind_run.
  pose proof (window_sound d a w) as H. cbv zeta in H.
  destruct (window rnd d a w) as [w1 out1 res1]. simpl in H |- *.
  destruct H as (Hs & negs & Hacc & Hres).
  destruct res1 as [[]|e]; simpl.
  - destruct Hres as (Hlen & Hresp & ->).
    pose proof (IH (S a) w1) as H. cbv zeta in H.
    destruct (for_each (seq (S a) n) (window rnd d) w1) as [w2 out2 res2].
    simpl in H |- *.
    destruct H as (Hs' & negss & tail & -> & Hall & Htail & Hr).
    destruct (pool_step_config _ _ Hs) as (Hcs & Hnn & _).
    unfold negatives in *. rewrite Hcs, Hnn in *.
    split; [by eapply pool_step_trans|].
    exists (negs :: negss), tail. simpl.
    replace (a + S (length negss)) with (S (a + length negss)) by lia.
    rewrite <- app_assoc. split_and!; [done| |done|].
    + intros [|k] negs'; simpl.
      * intros [= <-]. by rewrite Nat.add_0_r.
      * intros Hk. replace (a + S k) with (S (a + k)) by lia. by apply Hall.
    + destruct res2; simpl; [|lia].
      destruct Hr as [-> ->]. done.
  - destruct Hres as (Hlen & ->). split; [done|].
    exists [], negs. simpl. rewrite Nat.add_0_r.
    split_and!; [done| |done|lia|done].
    intros k negs'. by rewrite lookup_nil.
Qed.

Lemma create_pairs_sound d w :
  let r := create_pairs rnd d w in
  let cs := context_size (self w) in
  pool_step w (final r) ∧
  ∃ negss tail,
    emitted r =
      mjoin (zip_with (window_pairs cs d) (seq 0 (length negss)) negss) ++
      negative_pairs (window_context cs d (length negss)) tail ∧
    (∀ k negs, negss !! k = Some negs →
       length negs = negatives (self w) ∧
       is_Some (window_response cs d k) ∧
       Forall (acceptable cs d k) negs) ∧
    Forall (acceptable cs d (length negss)) tail ∧
    match result r with
    | Returned _ =>
        tail = [] ∧
        length negss =
          if bool_decide (d = []) || negb (cs <? Py.len d)%Z then 0
          else windows cs d
    | Raised _ => length negss < windows cs d ∧ length tail ≤ negatives (self w)
    end.
Proof.
  unfold create_pairs. rewrite bind_run. simpl.
  destruct (bool_decide (d = []) || negb (context_size (self w) <? Py.len d)%Z).
  { simpl. split; [apply pool_step_refl|]. exists [], []. simpl.
    split_and!; try done; intros k negs; by rewrite lookup_nil. }
  pose proof (windows_sound d (Z.to_nat (Py.len d - context_size (self w))) 0 w)
    as H. cbv zeta in H.
  destruct (for_each _ _ _) as [w' out res]; simpl in H |- *.
  destruct H as (Hs & negss & tail & He & Hall & Htail & Hr).
  split; [done|]. exists negss, tail.
  split_and!; [done|done|done|]. unfold windows.
  destruct res; simpl in *; tauto.
Qed.

(** With a bounded pool, a draw either finds the pool empty, or ends
    after [c - c'] turns of the loop: with a pair when [loop_c] is still
    positive, with the loop exception when it is used up. *)
Lemma draw_total context response c w :
  pool_bounded (self w) → (0 < buffer_size (self w))%Z →
  let r := draw rnd context response c w in
  (buffer (self w) = [] ∧ result r = Raised PoolTooSmall ∧ emitted r = [] ∧
   final r = mkWorld (self w) (S (rng w))) ∨
  (∃ y c' b,
     final r = mkWorld (set_buffer b (self w)) (S (rng w) + (c - c')) ∧
     c' ≤ c ∧ b ++ [y] ≡ₚ buffer (self w) ∧
     ((0 < c' ∧ collides context response y = false ∧
       result r = Returned c' ∧ emitted r = [mkPair context y 0]) ∨
      (c' = 0 ∧ result r = Raised LoopDetected ∧ emitted r = []))).
Proof.
  intros Hb Hbs. rewrite draw_run. cbv zeta.
  destruct (Z.leb_spec (buffer_size (self w)) 0); [lia|].
  destruct (Deque.pop _) as [[x b2]|] eqn:Hpop.
  - right. apply pop_Some in Hpop.
    assert (b2 ++ [x] ≡ₚ buffer (self w)) as Hperm
      by (by rewrite <- Hpop, rotate_perm).
    pose proof (Permutation_length Hperm) as Hlen.
    rewrite length_app in Hlen. simpl in Hlen.
    destruct (retry_total context response c x
                (mkWorld (set_buffer b2 (self w)) (S (rng w))))
      as (y & c' & b & Hrun & Hle & Hlen' & Hperm' & Hfin).
    { unfold pool_bounded, Py.len in *. simpl. lia. }
    simpl in *. rewrite Hrun. simpl. exists y, c', b.
    assert (b ++ [y] ≡ₚ buffer (self w)) by (by rewrite Hperm').
    destruct c' as [|c']; simpl.
    + split_and!; [done|lia|done|]. right. done.
    + split_and!; [done|lia|done|]. left.
      split_and!; [lia| |done|done]. by destruct Hfin.
  - left. apply pop_None in Hpop.
    assert (buffer (self w) = []) as Hnil.
    { apply nil_length_inv. by rewrite <- (rotate_length
        (rnd (rng w) `mod` Z.to_nat (buffer_size (self w)))), Hpop. }
    simpl. rewrite Hnil, rotate_nil, <- Hnil, set_buffer_self. done.
Qed.

Lemma safe_ret {A} (a : A) : safe (mret a : @Gen U A).
Proof. intros w Hw. done. Qed.

Lemma safe_bind {A B} (m : @Gen U A) (k : A → @Gen U B) :
  safe m → (∀ a, safe (k a)) → safe (m ≫= k).
Proof.
  intros Hm Hk w Hw. rewrite bind_run.
  destruct (Hm w Hw) as [Hw1 He1].
  destruct (result (m w)) as [a|e] eqn:Hr; simpl; [by apply Hk|].
  split; [done|]. intros [= ->]. by apply He1.
Qed.

Lemma safe_yield (p : Pair U) : safe (yield p).
Proof. intros w Hw. done. Qed.

Lemma safe_raise {A} e : e ≠ EmptyPop → safe (raise e : @Gen U A).
Proof. intros He w Hw. split; [done|]. simpl. congruence. Qed.

Lemma safe_get_self {A} (k : ContextResponse U → @Gen U A) :
  (∀ s, safe (k s)) → safe (get_self ≫= k).
Proof. intros Hk. apply safe_bind; [|done]. intros w Hw. done. Qed.

Lemma safe_for_each {A} (xs : list A) (body : A → @Gen U ()) :
  (∀ a, safe (body a)) → safe (for_each xs body).
Proof.
  intros Hb. induction xs as [|a xs IH]; simpl; [apply safe_ret|].
  by apply safe_bind.
Qed.

Lemma safe_draw (context : list U) response c :
  safe (draw rnd context response c).
Proof.
  intros w Hw.
  destruct (Z.leb_spec (buffer_size (self w)) 0) as [Hle|Hlt].
  { rewrite draw_run. cbv zeta.
    destruct (Z.leb_spec (buffer_size (self w)) 0); [|lia]. done. }
  destruct (draw_total context response c w Hw Hlt)
    as [(_ & -> & _ & ->)|(y & c' & b & -> & _ & Hperm & Hres)]; [done|].
  split.
  - unfold pool_bounded, Py.len in *. simpl.
    apply Permutation_length in Hperm. rewrite length_app in Hperm.
    simpl in Hperm. lia.
  - by destruct Hres as [(_ & _ & -> & _)|(_ & -> & _)].
Qed.

Lemma safe_draws (context : list U) response n c :
  safe (draws rnd context response n c).
Proof.
  revert c. induction n as [|n IH]; intros c; simpl; [apply safe_ret|].
  apply safe_bind; [apply safe_draw|done].
Qed.

Lemma safe_window (d : list U) i : safe (window rnd d i).
Proof.
  unfold window. apply safe_get_self. intros s.
  destruct (Py.index d _); [|by apply safe_raise].
  apply safe_get_self. intros s'.
  apply safe_bind; [apply safe_draws|]. intros _. apply safe_yield.
Qed.

Lemma safe_create_pairs (d : list U) : safe (create_pairs rnd d).
Proof.
  unfold create_pairs. apply safe_get_self. intros s.
  destruct (_ || _); [apply safe_ret|].
  apply safe_for_each, safe_window.
Qed.

End WithRandom.

(** The pairs of a window, by position. *)
Lemma negative_pairs_lookup context (negs : list U) k p :
  negative_pairs context negs !! k = Some p ↔
  ∃ y, negs !! k = Some y ∧ p = mkPair context y 0.
Proof.
  unfold negative_pairs. rewrite list_lookup_fmap_Some.
  split; intros (y & ? & ?); eauto.
Qed.

Lemma window_pairs_length cs (d : list U) i negs :
  is_Some (window_response cs d i) →
  length (window_pairs cs d i negs) = S (length negs).
Proof.
  intros [r Hr]. unfold window_pairs, negative_pairs. rewrite Hr.
  rewrite length_app, length_fmap. simpl. lia.
Qed.

Lemma window_pairs_negative cs (d : list U) i negs k p :
  window_pairs cs d i negs !! k = Some p → label p = 0%Z →
  ∃ y, negs !! k = Some y ∧ p = mkPair (window_context cs d i) y 0.
Proof.
  unfold window_pairs. intros [Hk|[_ Hk]]%lookup_app_Some Hl.
  - by apply negative_pairs_lookup.
  - destruct (window_response cs d i); [|by rewrite lookup_nil in Hk].
    apply list_lookup_singleton_Some in Hk as [_ <-]. done.
Qed.

Lemma window_chunks cs (d : list U) a n negss :
  (∀ k negs, negss !! k = Some negs →
     length negs = n ∧ is_Some (window_response cs d (a + k))) →
  Forall (λ l, length l = S n)
    (zip_with (window_pairs cs d) (seq a (length negss)) negss).
Proof.
  intros H. apply Forall_lookup. intros q l.
  intros (i & negs & -> & Hi & Hq)%lookup_zip_with_Some.
  apply lookup_seq in Hi as [-> _].
  destruct (H q negs Hq) as [<- ?]. by apply window_pairs_length.
Qed.

End GenFacts.

(** ** The per-call protocol *)

Section CallFacts.
Context {U : Type} `{!EqDecision U}.
Implicit Types (w : World U) (s : ContextResponse U) (d : list U).

Lemma slice_to_nonneg {A} (l : list A) k :
  (0 ≤ k)%Z → Py.slice_to l k = take (Z.to_nat k) l.
Proof.
  intros H. unfold Py.slice_to, Py.from_end.
  by destruct (Z.ltb_spec k 0); [lia|].
Qed.

Lemma append_length_ge {A} maxlen (x : A) l :
  length l ≤ length (Deque.append maxlen x l).
Proof.
  unfold Deque.append. destruct (_ <? _)%Z; [rewrite length_app; lia|].
  destruct l; simpl; [lia|]. rewrite length_app. simpl. lia.
Qed.

Lemma extend_length_ge {A} maxlen (xs l : list A) :
  length l ≤ length (Deque.extend maxlen xs l).
Proof.
  unfold Deque.extend. revert l. induction xs as [|x xs IH]; intros l; simpl; [lia|].
  etrans; [apply (append_length_ge maxlen x)|apply IH].
Qed.

(** Line 149 in closed form: what fits of the carry-over, in order. *)
Lemma carry_over_buffer s :
  pool_bounded s →
  buffer (carry_over s) =
    buffer s ++ take (Z.to_nat (buffer_size s - Py.len (buffer s))) (prev_utterances s).
Proof.
  unfold pool_bounded, carry_over, Py.len. intros Hb. simpl.
  rewrite slice_to_nonneg by lia.
  rewrite extend_room.
  2:{ unfold Py.len. rewrite length_take. lia. }
  f_equal.
  destruct (Z.min_spec (Z.of_nat (length (prev_utterances s)))
              (buffer_size s - Z.of_nat (length (buffer s)))) as [[? ->]|[? ->]];
    [|done].
  rewrite Nat2Z.id, !take_ge by lia. done.
Qed.

Lemma carry_over_bounded s : pool_bounded s → pool_bounded (carry_over s).
Proof. intros Hb. unfold pool_bounded, carry_over. simpl. by apply extend_bounded. Qed.

Lemma begin_call_bounded d s : pool_bounded s → pool_bounded (begin_call d s).
Proof. intros Hb. by apply (carry_over_bounded (set_counter (counter s + 1) s)). Qed.

Lemma begin_call_config d s : same_config s (begin_call d s).
Proof. done. Qed.

Lemma begin_call_not_warmup d s : ¬ warmup s → ¬ warmup (begin_call d s).
Proof.
  unfold warmup, begin_call, Py.len. simpl. intros H.
  pose proof (extend_length_ge (buffer_size s)
    (Py.slice_to (prev_utterances s)
       (Z.of_nat (length (prev_utterances s))
          `min` (buffer_size s - Z.of_nat (length (buffer s))))%Z) (buffer s)).
  unfold Py.len. lia.
Qed.

(** Lines 152-155 in closed form: the tail of the dialogue, last utterance
    first, as far as there is room. *)
Lemma warmup_fill_take maxlen d i (b : list U) :
  i ≤ length d →
  warmup_fill maxlen d i b =
    b ++ take (Z.to_nat (maxlen - Py.len b)) (reverse (take i d)).
Proof.
  revert b. induction i as [|i IH]; intros b Hi; cbn [warmup_fill].
  { by rewrite take_0, reverse_nil, take_nil, app_nil_r. }
  destruct (Z.ltb_spec (Py.len b) maxlen) as [Hlt|Hge].
  - destruct (d !! i) as [u|] eqn:Hu.
    2:{ apply lookup_ge_None in Hu. lia. }
    rewrite IH by lia.
    rewrite (take_S_r _ _ _ Hu), reverse_snoc, append_room by done.
    unfold Py.len in *. rewrite length_app. simpl.
    replace (Z.to_nat (maxlen - Z.of_nat (length b)))
      with (S (Z.to_nat (maxlen - Z.of_nat (length b + 1)))) by lia.
    simpl. by rewrite <- app_assoc.
  - replace (Z.to_nat (maxlen - Py.len b)) with 0 by lia.
    by rewrite take_0, app_nil_r.
Qed.

Lemma warmup_fill_bounded maxlen d i (b : list U) :
  (Py.len b ≤ maxlen)%Z → (Py.len (warmup_fill maxlen d i b) ≤ maxlen)%Z.
Proof.
  revert b. induction i as [|i IH]; intros b Hb; cbn [warmup_fill]; [done|].
  destruct (_ <? _)%Z; [|done].
  destruct (d !! i); [|done]. by apply IH, append_bounded.
Qed.

Section WithRandom.
Context (rnd : nat → nat).

Lemma call_unfold fuel d w :
  __call__ rnd fuel d w =
    let s := begin_call d (self w) in
    if (Py.len (buffer s) <? buffer_size s)%Z then
      Some (mkRun (mkWorld
              (set_initial_samples (initial_samples s ++ [d])
                 (set_buffer (warmup_fill (buffer_size s) d (length d) (buffer s)) s))
              (rng w)) [] (Returned ()))
    else if (counter s =? total_dialogues s)%Z then
      match fuel with
      | O => None
      | S fuel' =>
          replay (__call__ rnd fuel') (d :: initial_samples s)
            (mkWorld (set_counter 0 (set_initial_samples [] s)) (rng w))
      end
    else Some (create_pairs rnd d (mkWorld s (rng w))).
Proof. by destruct fuel. Qed.

Lemma call_warmup_run fuel d w :
  let s := begin_call d (self w) in
  warmup s →
  __call__ rnd fuel d w =
    Some (mkRun (mkWorld
            (set_initial_samples (initial_samples s ++ [d])
               (set_buffer (warmup_fill (buffer_size s) d (length d) (buffer s)) s))
            (rng w)) [] (Returned ())).
Proof.
  intros s Hs. rewrite call_unfold. cbv zeta. fold s.
  unfold warmup in Hs. by rewrite (proj2 (Z.ltb_lt _ _) Hs).
Qed.

Lemma call_steady_run fuel d w :
  let s := begin_call d (self w) in
  steady s →
  __call__ rnd fuel d w = Some (create_pairs rnd d (mkWorld s (rng w))).
Proof.
  intros s [Hw Hc]. rewrite call_unfold. cbv zeta. fold s.
  unfold warmup in Hw. rewrite (proj2 (Z.ltb_ge _ _)) by lia.
  by rewrite (proj2 (Z.eqb_neq _ _) Hc).
Qed.

Lemma call_flush_run fuel d w :
  let s := begin_call d (self w) in
  flush s →
  __call__ rnd (S fuel) d w =
    replay (__call__ rnd fuel) (d :: initial_samples s)
      (mkWorld (set_counter 0 (set_initial_samples [] s)) (rng w)).
Proof.
  intros s [Hw Hc]. rewrite call_unfold. cbv zeta. fold s.
  unfold warmup in Hw. rewrite (proj2 (Z.ltb_ge _ _)) by lia.
  by rewrite (proj2 (Z.eqb_eq _ _) Hc).
Qed.

Lemma call_branches d s : warmup s ∨ flush s ∨ steady s.
Proof.
  unfold flush, steady, warmup.
  destruct (decide (Py.len (buffer s) < buffer_size s)%Z); [by left|right].
  destruct (decide (counter s = total_dialogues s)); [by left|by right].
Qed.

(** What every sub-call keeps, a replay keeps. *)
Lemma replay_keeps (f : list U → World U → option (Run ()))
    (I : World U → Prop) (E : exn → Prop) :
  (∀ d w r, I w → f d w = Some r →
     I (final r) ∧ ∀ e, result r = Raised e → E e) →
  ∀ ds w r, I w → replay f ds w = Some r →
    I (final r) ∧ ∀ e, result r = Raised e → E e.
Proof.
  intros Hf ds. induction ds as [|d ds IH]; intros w r Hw; simpl.
  { intros [= <-]. by split. }
  destruct (f d w) as [r1|] eqn:Hr1; [|done].
  destruct (Hf _ _ _ Hw Hr1) as [Hw1 He1].
  destruct (result r1) eqn:Hres.
  - destruct (replay f ds (final r1)) as [r2|] eqn:Hr2; [|done].
    intros [= <-]. simpl. by apply (IH (final r1)).
  - intros [= <-]. split; [done|]. by rewrite Hres.
Qed.

(** The pairs of a replay are those of its sub-calls, in order; a replay
    that returns has run one sub-call per dialogue. *)
Lemma replay_sub_runs (f : list U → World U → option (Run ())) ds w r :
  replay f ds w = Some r →
  emitted r = mjoin (emitted <$> sub_runs f ds w) ∧
  (result r = Returned () → length (sub_runs f ds w) = length ds).
Proof.
  revert w r. induction ds as [|d ds IH]; intros w r; simpl.
  { by intros [= <-]. }
  destruct (f d w) as [r1|] eqn:Hr1; [|done].
  destruct (result r1) eqn:Hres.
  - destruct (replay f ds (final r1)) as [r2|] eqn:Hr2; [|done].
    intros [= <-]. simpl. destruct (IH _ _ Hr2) as [-> Hlen].
    split; [done|]. intros Hret. by rewrite Hlen.
  - intros [= <-]. simpl. rewrite app_nil_r. split; [done|].
    by rewrite Hres.
Qed.

Lemma replay_mono (f g : list U → World U → option (Run ())) :
  (∀ d w r, f d w = Some r → g d w = Some r) →
  ∀ ds w r, replay f ds w = Some r → replay g ds w = Some r.
Proof.
  intros Hfg ds. induction ds as [|d ds IH]; intros w r; simpl; [done|].
  destruct (f d w) as [r1|] eqn:Hr1; [|done].
  rewrite (Hfg _ _ _ Hr1).
  destruct (result r1); [|done].
  destruct (replay f ds (final r1)) as [r2|] eqn:Hr2; [|done].
  by rewrite (IH _ _ Hr2).
Qed.

(** More fuel does not change a finished call. *)
Lemma call_mono fuel d w r :
  __call__ rnd fuel d w = Some r → __call__ rnd (S fuel) d w = Some r.
Proof.
  revert d w r. induction fuel as [|fuel IH]; intros d w r;
    rewrite !call_unfold; cbv zeta;
    destruct (_ <? _)%Z; try done; destruct (_ =? _)%Z; try done.
  by apply replay_mono.
Qed.

Lemma call_mono_le fuel fuel' d w r :
  fuel ≤ fuel' → __call__ rnd fuel d w = Some r → __call__ rnd fuel' d w = Some r.
Proof. induction 1; [done|]. intros. by apply call_mono, IHle. Qed.

(** A call keeps the pool within its bound, lets no [IndexError] of the
    inner [pop()] escape, and leaves the configuration alone. *)
Lemma call_safe fuel d w r :
  pool_bounded (self w) → __call__ rnd fuel d w = Some r →
  pool_bounded (self (final r)) ∧ ∀ e, result r = Raised e → e ≠ EmptyPop.
Proof.
  revert d w r. induction fuel as [|fuel IH]; intros d w r Hw;
    rewrite call_unfold; cbv zeta;
    pose proof (begin_call_bounded d _ Hw) as Hb;
    (destruct (_ <? _)%Z;
     [intros [= <-]; split; [by apply warmup_fill_bounded|done]|]);
    (destruct (_ =? _)%Z;
     [|intros [= <-];
       destruct (safe_create_pairs rnd d
                   (mkWorld (begin_call d (self w)) (rng w)) Hb) as [? Hne];
       split; [done|]; intros e He ->; by rewrite He in Hne]).
  - done.
  - apply (replay_keeps (__call__ rnd fuel) (λ w, pool_bounded (self w))
             (λ e, e ≠ EmptyPop)); [|done].
    intros d' w' r' Hw' Hr'. by apply (IH d' w' r').
Qed.

Lemma call_config fuel d w r :
  __call__ rnd fuel d w = Some r → same_config (self w) (self (final r)).
Proof.
  revert d w r. induction fuel as [|fuel IH]; intros d w r;
    rewrite call_unfold; cbv zeta;
    (destruct (_ <? _)%Z; [by intros [= <-]|]);
    (destruct (_ =? _)%Z;
     [|intros [= <-];
       destruct (create_pairs_sound rnd d
                   (mkWorld (begin_call d (self w)) (rng w))) as [Hs _];
       destruct (pool_step_config _ _ Hs) as (? & ? & ? & ? & _); done]).
  - done.
  - intros Hr.
    apply (replay_keeps (__call__ rnd fuel)
             (λ w', same_config (self w) (self w')) (λ _, True)) in Hr;
      [tauto| |done].
    intros d' w' r' Hw' Hr'. split; [|done].
    destruct (IH _ _ _ Hr') as (? & ? & ? & ?).
    destruct Hw' as (? & ? & ? & ?). split_and!; congruence.
Qed.

(** *** Termination of the recursion of line 166

    A replay starts with the counter at 0 and the pool at capacity, so that
    its first dialogue goes to [create_pairs] unless [total_dialogues] is 1;
    each nested replay therefore has fewer dialogues to go through. *)

Lemma replay_terminates_from fuel :
  (∀ d w, total_dialogues (self w) ≠ 1%Z → deferred w < fuel →
     ∃ r, __call__ rnd fuel d w = Some r ∧ deferred (final r) ≤ S (deferred w)) →
  ∀ ds w, total_dialogues (self w) ≠ 1%Z → length ds + deferred w ≤ fuel →
    ∃ r, replay (__call__ rnd fuel) ds w = Some r ∧
         deferred (final r) ≤ length ds + deferred w.
Proof.
  intros Hcall ds. induction ds as [|d ds IH]; intros w Htd Hfuel; simpl.
  { eexists. split; [done|]. simpl. lia. }
  simpl in Hfuel.
  destruct (Hcall d w Htd) as (r1 & Hr1 & Hd1); [lia|]. rewrite Hr1.
  destruct (result r1); [|exists r1; split; [done|lia]].
  destruct (IH (final r1)) as (r2 & Hr2 & Hd2); [|lia|].
  { destruct (call_config _ _ _ _ Hr1) as [-> _]. done. }
  rewrite Hr2. eexists. split; [done|]. simpl. lia.
Qed.

Lemma call_terminates_aux fuel :
  ∀ d w, total_dialogues (self w) ≠ 1%Z → deferred w < fuel →
    ∃ r, __call__ rnd fuel d w = Some r ∧ deferred (final r) ≤ S (deferred w).
Proof.
  induction fuel as [|fuel IH]; intros d w Htd Hfuel; [lia|].
  destruct (call_branches d (begin_call d (self w))) as [Hw|[Hf|Hs]].
  - rewrite call_warmup_run by done. eexists. split; [done|].
    unfold deferred. simpl. rewrite length_app. simpl. lia.
  - rewrite call_flush_run by done.
    set (s := begin_call d (self w)) in *.
    set (w' := mkWorld (set_counter 0 (set_initial_samples [] s)) (rng w)).
    assert (steady (begin_call d (self w'))) as Hs.
    { split.
      - apply begin_call_not_warmup. by destruct Hf.
      - simpl. done. }
    simpl. rewrite (call_steady_run fuel d w') by done.
    destruct (create_pairs_sound rnd d (mkWorld (begin_call d (self w')) (rng w')))
      as [Hstep _].
    destruct (pool_step_config _ _ Hstep) as (_ & _ & _ & Htd' & _ & Hdef & _).
    destruct (create_pairs rnd d _) as [w1 out1 res1]; simpl in *.
    destruct res1; [|eexists; split; [done|]; unfold deferred; simpl; rewrite Hdef; simpl; lia].
    destruct (replay_terminates_from fuel IH (initial_samples (self w)) w1)
      as (r2 & Hr2 & Hd2).
    { by rewrite Htd'. }
    { unfold deferred in *. rewrite Hdef. simpl. simpl in Hfuel. lia. }
    rewrite Hr2. eexists. split; [done|]. simpl.
    unfold deferred in *. rewrite Hdef in Hd2. simpl in *. lia.
  - rewrite call_steady_run by done.
    destruct (create_pairs_sound rnd d (mkWorld (begin_call d (self w)) (rng w)))
      as [Hstep _].
    destruct (pool_step_config _ _ Hstep) as (_ & _ & _ & _ & _ & Hdef & _).
    eexists. split; [done|]. unfold deferred. rewrite Hdef. simpl. lia.
Qed.

(** Unless [total_dialogues] is 1, a call finishes, and with the same run
    whatever fuel is given beyond the number of deferred dialogues. *)
Lemma call_terminates d w :
  total_dialogues (self w) ≠ 1%Z →
  ∃ r, ∀ fuel, deferred w < fuel → __call__ rnd fuel d w = Some r.
Proof.
  intros Htd.
  destruct (call_terminates_aux (S (deferred w)) d w Htd) as (r & Hr & _); [lia|].
  exists r. intros fuel Hfuel. eapply call_mono_le; [|exact Hr]. lia.
Qed.

(** With [total_dialogues] at 1 the replay never ends: its first sub-call
    finds the counter at 1 again, and the pool still at capacity. *)
Lemma flush_diverges fuel d w :
  total_dialogues (self w) = 1%Z → flush (begin_call d (self w)) →
  __call__ rnd fuel d w = None.
Proof.
  revert w. induction fuel as [|fuel IH]; intros w Htd Hf.
  { rewrite call_unfold. cbv zeta. destruct Hf as [Hw Hc].
    unfold warmup in Hw. rewrite (proj2 (Z.ltb_ge _ _)) by lia.
    by rewrite (proj2 (Z.eqb_eq _ _) Hc). }
  rewrite call_flush_run by done. cbn [replay].
  rewrite IH; [done|done|].
  destruct Hf as [Hw Hc]. split.
  - by apply begin_call_not_warmup.
  - simpl in *. lia.
Qed.

End WithRandom.
End CallFacts.

(** ** The sampling procedure *)

Section SamplingTheorems.
Context {U : Type} `{!EqDecision U}.
Context (rnd : nat → nat).
Implicit Types (w : World U) (s : ContextResponse U) (d : list U).

Lemma draw_deadlock (context : list U) response c w :
  pool_bounded (self w) → buffer (self w) ≠ [] →
  (∀ y, y ∈ buffer (self w) → collides context response y = true) →
  result (draw rnd context response c w) = Raised LoopDetected ∧
  emitted (draw rnd context response c w) = [].
Proof.
  intros Hb Hne Hall.
  assert (0 < buffer_size (self w))%Z as Hbs.
  { unfold pool_bounded, Py.len in Hb. destruct (buffer (self w)); [done|].
    simpl in Hb. lia. }
  destruct (draw_total rnd context response c w Hb Hbs)
    as [(? & _)|(y & c' & b & _ & _ & Hperm & Hres)]; [done|].
  destruct Hres as [(_ & Hy & _)|(_ & ? & ?)]; [|done].
  rewrite Hall in Hy; [done|].
  rewrite <- Hperm. apply elem_of_app. right. by apply list_elem_of_singleton.
Qed.

Lemma bind_raises {A B} (m : @Gen U A) (k : A → @Gen U B) e w :
  result (m w) = Raised e ∧ emitted (m w) = [] →
  result ((m ≫= k) w) = Raised e ∧ emitted ((m ≫= k) w) = [].
Proof. intros [Hr He]. rewrite bind_run, Hr. done. Qed.

Lemma index_window_response cs d i :
  (0 ≤ cs)%Z → (Z.of_nat i + cs < Py.len d)%Z →
  is_Some (window_response cs d i).
Proof.
  unfold window_response, Py.index, Py.from_end, Py.len. intros.
  destruct (Z.ltb_spec (Z.of_nat i + cs) 0); [lia|].
  destruct (Z.ltb_spec (Z.of_nat i + cs) 0); [lia|].
  apply lookup_lt_is_Some_2. lia.
Qed.

Lemma window_deadlock d i w :
  pool_bounded (self w) → buffer (self w) ≠ [] →
  (0 < num_negative (self w))%Z →
  is_Some (window_response (context_size (self w)) d i) →
  (∀ y, y ∈ buffer (self w) →
     y ∈ window_context (context_size (self w)) d i ∨
     window_response (context_size (self w)) d i = Some y) →
  result (window rnd d i w) = Raised LoopDetected ∧
  emitted (window rnd d i w) = [].
Proof.
  intros Hb Hne Hnn [resp Hresp] Hall.
  unfold window. rewrite bind_run. simpl.
  unfold window_response, window_context in *. rewrite Hresp.
  rewrite bind_run. simpl.
  destruct (Z.to_nat (num_negative (self w))) as [|n] eqn:Hn; [lia|].
  apply bind_raises, bind_raises, draw_deadlock; [done|done|].
  intros y Hy. apply collides_true.
  destruct (Hall y Hy) as [?|Heq]; [by left|right]. congruence.
Qed.

(** C1.  Every label-0 pair that [create_pairs] yields belongs to a window
    of the dialogue (the window [j / (num_negative + 1)] for the pair in
    position [j]), has the context of that window, and its response is
    neither in that context nor the true response of the window; this holds
    of every run, whether it returns or an exception ends it.  And on a
    degenerate pool, one whose utterances all occur in the context of the
    first window or are its response, the run ends with the loop exception
    without a single pair. *)
Theorem negatives_never_collide d w :
  let r := create_pairs rnd d w in
  let cs := context_size (self w) in
  let n := negatives (self w) in
  (∀ j p, emitted r !! j = Some p → label p = 0%Z →
     context p = window_context cs d (j / S n) ∧
     (response p ∉ context p) ∧
     ∃ resp, window_response cs d (j / S n) = Some resp ∧ response p ≠ resp) ∧
  (pool_bounded (self w) → buffer (self w) ≠ [] →
   (0 < num_negative (self w))%Z → (0 ≤ cs < Py.len d)%Z →
   (∀ y, y ∈ buffer (self w) →
      y ∈ window_context cs d 0 ∨ window_response cs d 0 = Some y) →
   result r = Raised LoopDetected ∧ emitted r = []).
Proof.
  cbv zeta. split.
  - destruct (create_pairs_sound rnd d w)
      as (_ & negss & tail & He & Hall & Htail & Hr).
    intros j p Hj Hl. rewrite He in Hj.
    apply (chunks_lookup (negatives (self w))) in Hj.
    + destruct Hj as [(l & Hl1 & Hl2)|[Hq Hl2]].
      * apply lookup_zip_with_Some in Hl1 as (i & negs & -> & Hi & Hq).
        apply lookup_seq in Hi as [-> _]. simpl in *.
        apply window_pairs_negative in Hl2 as (y & Hy & ->); [|done].
        destruct (Hall _ _ Hq) as (_ & _ & Hacc).
        destruct (Forall_lookup_1 _ _ _ _ Hacc Hy) as [? ?]. simpl. done.
      * apply negative_pairs_lookup in Hl2 as (y & Hy & ->).
        rewrite length_zip_with_r_eq in Hq by (by rewrite length_seq).
        rewrite Hq. destruct (Forall_lookup_1 _ _ _ _ Htail Hy) as [? ?].
        simpl. done.
    + apply (window_chunks _ _ 0). intros k negs Hk.
      destruct (Hall _ _ Hk) as (? & ? & _). done.
    + unfold negative_pairs. rewrite length_fmap.
      destruct (result (create_pairs rnd d w)); [|lia].
      destruct Hr as [-> _]. simpl. lia.
  - intros Hb Hne Hnn Hcs Hall.
    unfold create_pairs. rewrite bind_run. simpl.
    assert (d ≠ []) as Hd.
    { intros ->. unfold Py.len in Hcs. simpl in Hcs. lia. }
    rewrite bool_decide_eq_false_2 by done.
    rewrite (proj2 (Z.ltb_lt _ _)) by lia. simpl.
    destruct (Z.to_nat (Py.len d - context_size (self w))) as [|n] eqn:Hn; [lia|].
    apply bind_raises, window_deadlock; try done.
    apply index_window_response; simpl; lia.
Qed.

(** A run of [create_pairs] that returns has yielded every window in full. *)
Lemma create_pairs_complete d w :
  let r := create_pairs rnd d w in
  let cs := context_size (self w) in
  let n := negatives (self w) in
  d ≠ [] → (cs < Py.len d)%Z → result r = Returned () →
  length (emitted r) = windows cs d * S n ∧
  ∀ i, i < windows cs d →
    (∀ k, k < n →
       ∃ y, emitted r !! (i * S n + k) = Some (mkPair (window_context cs d i) y 0)) ∧
    ∃ resp, window_response cs d i = Some resp ∧
      emitted r !! (i * S n + n) = Some (mkPair (window_context cs d i) resp 1).
Proof.
  cbv zeta. intros Hd Hcs Hret.
  destruct (create_pairs_sound rnd d w)
    as (_ & negss & tail & He & Hall & _ & Hr).
  rewrite Hret in Hr. destruct Hr as [-> Hlen].
  rewrite bool_decide_eq_false_2 in Hlen by done.
  rewrite (proj2 (Z.ltb_lt _ _) Hcs) in Hlen. simpl in Hlen.
  rewrite He.
  change (negative_pairs (window_context (context_size (self w)) d (length negss)) [])
    with (@nil (Pair U)).
  rewrite !app_nil_r.
  assert (Forall (λ l, length l = S (negatives (self w)))
            (zip_with (window_pairs (context_size (self w)) d)
               (seq 0 (length negss)) negss)) as Hchunks.
  { apply (window_chunks _ _ 0). intros k negs Hk.
    destruct (Hall _ _ Hk) as (? & ? & _). done. }
  split.
  { rewrite (chunks_length _ _ Hchunks), length_zip_with_r_eq, Hlen; [done|].
    by rewrite length_seq. }
  intros i Hi. rewrite <- Hlen in Hi.
  destruct (lookup_lt_is_Some_2 negss i Hi) as [negs Hnegs].
  destruct (Hall _ _ Hnegs) as (Hn & [resp Hresp] & _).
  assert (zip_with (window_pairs (context_size (self w)) d)
            (seq 0 (length negss)) negss !! i
          = Some (window_pairs (context_size (self w)) d i negs)) as Hchunk.
  { apply lookup_zip_with_Some. exists i, negs. split_and!; [done| |done].
    by apply lookup_seq. }
  split.
  - intros k Hk.
    destruct (lookup_lt_is_Some_2 negs k) as [y Hy]; [lia|].
    exists y. apply (join_lookup_Some_same_length' _ _ _ _ _ Hchunks); [lia|].
    eexists. split; [exact Hchunk|].
    unfold window_pairs. rewrite lookup_app_l.
    + apply negative_pairs_lookup. eauto.
    + unfold negative_pairs. rewrite length_fmap. lia.
  - exists resp. split; [done|].
    apply (join_lookup_Some_same_length' _ _ _ _ _ Hchunks); [lia|].
    eexists. split; [exact Hchunk|].
    unfold window_pairs. rewrite Hresp, lookup_app_r.
    + unfold negative_pairs. rewrite length_fmap, Hn, Nat.sub_diag. done.
    + unfold negative_pairs. rewrite length_fmap. lia.
Qed.

(** C7 (amended).  A non-empty dialogue longer than [context_size] that a
    call processes in the steady state, and whose generator returns without
    an exception, has yielded, for the windows [i = 0, 1, ...] in this
    order, [num_negative] label-0 pairs followed by one label-1 pair, all
    with the context [d[i : i + context_size]], the label-1 pair with the
    response [d[i + context_size]]. *)
Theorem steady_windows_complete fuel d w :
  let s := begin_call d (self w) in
  let cs := context_size (self w) in
  let n := negatives (self w) in
  steady s → d ≠ [] → (cs < Py.len d)%Z →
  ∃ r, __call__ rnd fuel d w = Some r ∧
    (result r = Returned () →
     length (emitted r) = windows cs d * S n ∧
     ∀ i, i < windows cs d →
       (∀ k, k < n →
          ∃ y, emitted r !! (i * S n + k) =
                 Some (mkPair (window_context cs d i) y 0)) ∧
       ∃ resp, window_response cs d i = Some resp ∧
         emitted r !! (i * S n + n) =
           Some (mkPair (window_context cs d i) resp 1)).
Proof.
  cbv zeta. intros Hs Hd Hcs. eexists. split; [by apply call_steady_run|].
  intros Hret.
  by apply (create_pairs_complete d
              (mkWorld (begin_call d (self w)) (rng w))).
Qed.

(** *** The retry budget *)



(** C10.  A candidate that is pushed back leaves the pool non-empty for the
    [pop()] that follows the rotation, so that the [while] loop runs to its
    end without an exception; of a draw, only the first [pop()] can find
    the pool empty; and no call lets the [IndexError] of the inner
    [pop()] escape. *)
Theorem inner_pop_never_raises :
  (∀ maxlen (b : list U) x n,
     (Py.len b < maxlen)%Z →
     ∃ y b', Deque.pop (Deque.rotate n (Deque.append maxlen x b)) = Some (y, b') ∧
             length b' = length b) ∧
  (∀ (context : list U) response c x w,
     (Py.len (buffer (self w)) < buffer_size (self w))%Z →
     ∃ y c', result (retry rnd context response c x w) = Returned (y, c')) ∧
  (∀ (context : list U) response c w,
     pool_bounded (self w) →
     result (draw rnd context response c w) ≠ Raised EmptyPop ∧
     (result (draw rnd context response c w) = Raised PoolTooSmall →
      buffer (self w) = [])) ∧
  (∀ fuel d w r,
     pool_bounded (self w) → __call__ rnd fuel d w = Some r →
     result r ≠ Raised EmptyPop).
Proof.
  split_and!.
  - intros maxlen b x n Hroom. rewrite append_room by done.
    destruct (Deque.pop _) as [[y b']|] eqn:Hpop.
    + exists y, b'. split; [done|].
      apply pop_length in Hpop.
      rewrite rotate_length, length_app in Hpop. simpl in Hpop. lia.
    + apply pop_None, (f_equal length) in Hpop.
      rewrite rotate_length, length_app in Hpop. simpl in Hpop. lia.
  - intros context response c x w Hroom.
    destruct (retry_total rnd context response c x w Hroom)
      as (y & c' & b & -> & _). by exists y, c'.
  - intros context response c w Hb.
    split; [by apply safe_draw|].
    destruct (Z.leb_spec (buffer_size (self w)) 0) as [Hle|Hlt].
    { rewrite draw_run. cbv zeta.
      destruct (Z.leb_spec (buffer_size (self w)) 0); [done|lia]. }
    destruct (draw_total rnd context response c w Hb Hlt)
      as [(? & _)|(y & c' & b & _ & _ & _ & Hres)]; [done|].
    by destruct Hres as [(_ & _ & -> & _)|(_ & -> & _)].
  - intros fuel d w r Hb Hr Hres.
    destruct (call_safe rnd fuel d w r Hb Hr) as [_ Hne].
    by apply (Hne EmptyPop).
Qed.

End SamplingTheorems.

(** ** The protocol of [__call__] *)

Section CallTheorems.
Context {U : Type} `{!EqDecision U}.
Context (rnd : nat → nat).
Implicit Types (w : World U) (s : ContextResponse U) (d : list U).

(** C5.  A call that finds the pool below [buffer_size] once the carry-over
    is in appends the utterances of the dialogue from its tail backward, as
    many as fit, records the dialogue after the deferred ones, and yields
    nothing. *)
Theorem call_warmup_fills fuel d w :
  let s := begin_call d (self w) in
  warmup s →
  ∃ s', __call__ rnd fuel d w = Some (mkRun (mkWorld s' (rng w)) [] (Returned ())) ∧
    buffer s' =
      buffer s ++ take (Z.to_nat (buffer_size s - Py.len (buffer s))) (reverse d) ∧
    Py.len (buffer s') = (buffer_size s `min` (Py.len (buffer s) + Py.len d))%Z ∧
    initial_samples s' = initial_samples (self w) ++ [d] ∧
    same_config (self w) s' ∧
    counter s' = (counter (self w) + 1)%Z ∧
    prev_utterances s' = prev_utterances s.
Proof.
  intros s Hs. eexists. split; [by apply call_warmup_run|]. fold s.
  assert (initial_samples s = initial_samples (self w)) as Hi by done.
  assert (same_config (self w) s) as Hc by done.
  assert (counter s = (counter (self w) + 1)%Z) as Hn by done.
  clearbody s. simpl. rewrite warmup_fill_take, firstn_all by done.
  split_and!; try done; [|by rewrite Hi].
  unfold warmup, Py.len in *.
  rewrite length_app, length_take, length_reverse. lia.
Qed.

(** C4.  A call that finds the pool at capacity and the counter at
    [total_dialogues] empties the deferred set, puts the counter back to 0
    and runs the whole protocol again on the current dialogue and then on
    the deferred dialogues in the order they were recorded; its pairs are
    those of these sub-calls, in this order, and when it returns there has
    been one sub-call per dialogue of the list.  The recursion comes to an
    end unless [total_dialogues] is 1. *)
Theorem call_flush_replays fuel d w :
  let s := begin_call d (self w) in
  flush s →
  let s' := set_counter 0 (set_initial_samples [] s) in
  initial_samples s' = [] ∧ counter s' = 0%Z ∧ buffer s' = buffer s ∧
  __call__ rnd (S fuel) d w =
    replay (__call__ rnd fuel) (d :: initial_samples (self w))
      (mkWorld s' (rng w)) ∧
  (∀ r, __call__ rnd (S fuel) d w = Some r →
     emitted r =
       mjoin (emitted <$> sub_runs (__call__ rnd fuel)
                            (d :: initial_samples (self w)) (mkWorld s' (rng w))) ∧
     (result r = Returned () →
      length (sub_runs (__call__ rnd fuel)
                (d :: initial_samples (self w)) (mkWorld s' (rng w))) =
        S (length (initial_samples (self w))))) ∧
  (total_dialogues (self w) ≠ 1%Z →
   ∃ r, ∀ n, deferred w < n → __call__ rnd n d w = Some r).
Proof.
  intros s Hs s'. split_and!; try done.
  - by apply call_flush_run.
  - intros r Hr. rewrite (call_flush_run rnd fuel d w Hs) in Hr.
    by apply replay_sub_runs in Hr.
  - by apply call_terminates.
Qed.

(** C9.  The pool never holds more than [buffer_size] utterances: a new
    object starts within the bound, and the insertion of the carry-over, the
    warm-up fill, every push-back, rotation and pop of the sampling, a whole
    [create_pairs], a call (with its replay) and a sequence of calls keep
    it. *)
Theorem pool_never_exceeds_buffer_size :
  (∀ td cs bs nn s, __init__ td cs bs nn = inr s → pool_bounded s) ∧
  (∀ s, pool_bounded s → pool_bounded (carry_over s)) ∧
  (∀ s d, pool_bounded s →
     pool_bounded
       (set_buffer (warmup_fill (buffer_size s) d (length d) (buffer s)) s)) ∧
  (∀ w x, pool_bounded (self w) →
     pool_bounded (self (final (buffer_append x w)))) ∧
  (∀ w, pool_bounded (self w) →
     pool_bounded (self (final (buffer_rotate rnd w)))) ∧
  (∀ w e, pool_bounded (self w) →
     pool_bounded (self (final (buffer_pop e w)))) ∧
  (∀ d w, pool_bounded (self w) →
     pool_bounded (self (final (create_pairs rnd d w)))) ∧
  (∀ fuel d w r, pool_bounded (self w) → __call__ rnd fuel d w = Some r →
     pool_bounded (self (final r))) ∧
  (∀ fuel ds w r, pool_bounded (self w) → calls rnd fuel ds w = Some r →
     pool_bounded (self (final r))).
Proof.
  split_and!.
  - intros td cs bs nn s. unfold __init__.
    destruct (negb _); [done|]. destruct (negb _); [done|].
    destruct (Z.ltb_spec bs 0); [done|].
    intros [= <-]. unfold pool_bounded, Py.len. simpl. lia.
  - apply carry_over_bounded.
  - intros s d Hb. by apply warmup_fill_bounded.
  - intros w x Hb. rewrite buffer_append_run. by apply append_bounded.
  - intros w Hb. rewrite buffer_rotate_run.
    destruct (_ <=? _)%Z; [done|].
    unfold pool_bounded, Py.len in *. simpl. by rewrite rotate_length.
  - intros w e Hb. rewrite buffer_pop_run.
    destruct (Deque.pop _) as [[x b]|] eqn:Hpop; [|done].
    apply pop_length in Hpop. unfold pool_bounded, Py.len in *. simpl. lia.
  - intros d w Hb. by apply safe_create_pairs.
  - intros fuel d w r Hb Hr. by destruct (call_safe rnd fuel d w r Hb Hr).
  - intros fuel ds w r Hb Hr.
    apply (replay_keeps (__call__ rnd fuel) (λ w, pool_bounded (self w))
             (λ _, True)) in Hr; [tauto| |done].
    intros d' w' r' Hw' Hr'. split; [|done].
    by destruct (call_safe rnd fuel d' w' r' Hw' Hr').
Qed.

(** *** The carry-over (line 150) *)

(** For a dialogue at least as long as the context, with a non-negative
    number of negatives, the carry-over is the leading slice of the stated
    length. *)
Lemma next_prev_leading d s :
  (0 ≤ (Py.len d - context_size s) * num_negative s)%Z →
  prev_utterances (next_prev d s) =
    take (Z.to_nat (((Py.len d - context_size s) * num_negative s)
                      `min` Py.len d)) d ∧
  Py.len (prev_utterances (next_prev d s)) =
    (((Py.len d - context_size s) * num_negative s) `min` Py.len d)%Z.
Proof.
  intros H. unfold next_prev. simpl.
  assert (0 ≤ Py.len d)%Z by (unfold Py.len; lia).
  rewrite slice_to_nonneg by lia. split; [done|].
  unfold Py.len in *. rewrite length_take. lia.
Qed.

(** For a shorter dialogue the bound of the slice is negative and counts
    from the end of the dialogue. *)
Lemma next_prev_negative d s :
  ((Py.len d - context_size s) * num_negative s < 0)%Z →
  prev_utterances (next_prev d s) =
    take (Z.to_nat (Py.len d + (Py.len d - context_size s) * num_negative s)) d.
Proof.
  intros H. unfold next_prev, Py.slice_to, Py.from_end. simpl.
  assert (0 ≤ Py.len d)%Z by (unfold Py.len; lia).
  rewrite Z.min_l by lia.
  destruct (Z.ltb_spec ((Py.len d - context_size s) * num_negative s) 0); [|lia].
  f_equal. unfold Py.len. lia.
Qed.

(** *** Once the counter is past [total_dialogues] *)

Lemma overshoot_call d w :
  (total_dialogues (self w) ≤ counter (self w))%Z →
  ∃ r, __call__ rnd 0 d w = Some r ∧
    (total_dialogues (self (final r)) ≤ counter (self (final r)))%Z ∧
    initial_samples (self w) `prefix_of` initial_samples (self (final r)).
Proof.
  intros Hc.
  destruct (call_branches d (begin_call d (self w))) as [Hw|[[_ Hf]|Hs]].
  - rewrite call_warmup_run by done. eexists. split; [done|]. simpl.
    split; [lia|]. by apply prefix_app_r.
  - simpl in Hf. lia.
  - rewrite call_steady_run by done. eexists. split; [done|].
    destruct (create_pairs_sound rnd d (mkWorld (begin_call d (self w)) (rng w)))
      as [Hstep _].
    destruct (pool_step_config _ _ Hstep) as (_ & _ & _ & -> & -> & -> & _).
    simpl. split; [lia|done].
Qed.

Lemma overshoot_calls ds w :
  (total_dialogues (self w) ≤ counter (self w))%Z →
  ∃ r, calls rnd 0 ds w = Some r ∧
    initial_samples (self w) `prefix_of` initial_samples (self (final r)).
Proof.
  unfold calls. revert w. induction ds as [|d ds IH]; intros w Hc; cbn [replay].
  { eexists. split; [done|]. done. }
  destruct (overshoot_call d w Hc) as (r1 & -> & Hc1 & Hp1).
  destruct (result r1); [|by exists r1].
  destruct (IH (final r1) Hc1) as (r2 & -> & Hp2).
  eexists. split; [done|]. simpl. by etrans.
Qed.

End CallTheorems.

(** ** Construction *)

Section Construction.
Context {U : Type} `{!EqDecision U}.

(** C8 (amended).  [__init__] fails on its assertions, before anything else
    is done, whenever [num_negative >= buffer_size] or
    [buffer_size > total_dialogues], as for (5, 2, 3, 3); it succeeds when
    [num_negative < buffer_size <= total_dialogues] and [buffer_size] is not
    negative. *)
Theorem init_outcome (td cs bs nn : Z) :
  ((bs ≤ nn ∨ td < bs)%Z → @__init__ U td cs bs nn = inl AssertionError) ∧
  @__init__ U 5 2 3 3 = inl AssertionError ∧
  ((nn < bs)%Z → (bs ≤ td)%Z → (0 ≤ bs)%Z →
   @__init__ U td cs bs nn =
     inr (mkContextResponse td cs bs (if (nn =? 0)%Z then 1%Z else nn)
            [] [] [] 0)).
Proof.
  unfold __init__. split_and!.
  - intros H. destruct (Z.ltb_spec nn bs); simpl; [|done].
    destruct (Z.leb_spec bs td); simpl; [lia|done].
  - done.
  - intros H1 H2 H3.
    destruct (Z.ltb_spec nn bs); simpl; [|lia].
    destruct (Z.leb_spec bs td); simpl; [|lia].
    destruct (Z.ltb_spec bs 0); [lia|done].
Qed.

End Construction.

(** ** Examples *)

Section ExampleRuns.
Local Open Scope string_scope.

(** C8, as stated, fails: with [num_negative < buffer_size <=
    total_dialogues] but a negative [buffer_size], [deque(maxlen=...)]
    raises [ValueError]. *)
Lemma init_negative_buffer_size :
  (-2 < -1)%Z ∧ (-1 ≤ 5)%Z ∧ @__init__ string 5 2 (-1) (-2) = inl ValueError.
Proof. split_and!; [lia|lia|reflexivity]. Qed.

Lemma init_outcome_witness :
  ((3 ≤ 3 ∨ 5 < 3)%Z ∧ @__init__ string 5 2 3 3 = inl AssertionError) ∧
  ((1 < 3)%Z ∧ (3 ≤ 5)%Z ∧ (0 ≤ 3)%Z ∧
   @__init__ string 5 2 3 1 = inr (mkContextResponse 5 2 3 1 [] [] [] 0)).
Proof.
  split.
  - split; [left; lia|].
    apply (proj1 (init_outcome 5 2 3 3)). left. lia.
  - split_and!; [lia|lia|lia|].
    apply (proj2 (proj2 (init_outcome 5 2 3 1))); lia.
Defined.


(** The loop exception is also raised when the candidate popped at the last
    retry does not collide: here [X], with the pool [X, A] and the window
    [A] -> [B]. *)
Lemma loop_detected_on_last_retry :
  @__init__ string 9 1 2 1 = inr fresh_9_1_2_1 ∧
  __call__ (rnd_list [0; 0; 1]) 0 ["A"; "X"] (mkWorld fresh_9_1_2_1 0) =
    Some (mkRun (mkWorld warm_9_1_2_1 0) [] (Returned ())) ∧
  mkWorld (begin_call ["A"; "B"] warm_9_1_2_1) 0 = last_retry_world ∧
  __call__ (rnd_list [0; 0; 1]) 0 ["A"; "B"] (mkWorld warm_9_1_2_1 0) =
    Some (mkRun (mkWorld (mkContextResponse 9 1 2 1 ["A"] [["A"; "X"]]
                            ["A"] 2) 3)
                [] (Raised LoopDetected)) ∧
  collides ["A"] "B" "X" = false.
Proof. split_and!; reflexivity. Qed.

(** A degenerate pool: the loop exception, and no pair. *)
Lemma degenerate_pool_example :
  __call__ (rnd_const 0) 0 ["B"; "A"] (mkWorld fresh_9_1_2_1 0) =
    Some (mkRun (mkWorld degenerate_9_1_2_1 0) [] (Returned ())) ∧
  mkWorld (begin_call ["A"; "B"] degenerate_9_1_2_1) 0 = degenerate_world ∧
  __call__ (rnd_const 0) 0 ["A"; "B"] (mkWorld degenerate_9_1_2_1 0) =
    Some (mkRun (mkWorld (mkContextResponse 9 1 2 1 ["A"] [["B"; "A"]]
                            ["A"] 2) 3)
                [] (Raised LoopDetected)).
Proof. split_and!; reflexivity. Qed.


Lemma negatives_never_collide_witness :
  (emitted (create_pairs (rnd_const 0) ["D"; "E"] (mkWorld warm_5_1_2_1 0)) !! 0%nat
     = Some (mkPair ["D"] "B" 0) ∧
   label (mkPair ["D"] "B" 0) = 0%Z ∧
   context (mkPair ["D"] "B" 0) = window_context 1 ["D"; "E"] (0 / 2) ∧
   ("B" ∉ context (mkPair ["D"] "B" 0)) ∧
   ∃ resp, window_response 1 ["D"; "E"] (0 / 2) = Some resp ∧ "B" ≠ resp) ∧
  (pool_bounded (self degenerate_world) ∧
   buffer (self degenerate_world) ≠ [] ∧
   (0 < num_negative (self degenerate_world))%Z ∧
   (0 ≤ 1 < Py.len ["A"; "B"])%Z ∧
   (∀ y, y ∈ buffer (self degenerate_world) →
      y ∈ window_context 1 ["A"; "B"] 0 ∨
      window_response 1 ["A"; "B"] 0 = Some y) ∧
   result (create_pairs (rnd_const 0) ["A"; "B"] degenerate_world)
     = Raised LoopDetected ∧
   emitted (create_pairs (rnd_const 0) ["A"; "B"] degenerate_world) = []).
Proof.
  split.
  - assert (emitted (create_pairs (rnd_const 0) ["D"; "E"] (mkWorld warm_5_1_2_1 0))
              !! 0%nat = Some (mkPair ["D"] "B" 0)) as H0 by reflexivity.
    split; [exact H0|]. split; [reflexivity|].
    exact (proj1 (negatives_never_collide (rnd_const 0) ["D"; "E"]
                    (mkWorld warm_5_1_2_1 0)) 0%nat _ H0 eq_refl).
  - assert (pool_bounded (self degenerate_world)) as Hb
      by (unfold pool_bounded, Py.len; simpl; lia).
    assert (buffer (self degenerate_world) ≠ []) as Hne by done.
    assert (0 < num_negative (self degenerate_world))%Z as Hnn by (simpl; lia).
    assert (0 ≤ 1 < Py.len ["A"; "B"])%Z as Hcs
      by (unfold Py.len; simpl; lia).
    assert (∀ y, y ∈ buffer (self degenerate_world) →
              y ∈ window_context 1 ["A"; "B"] 0 ∨
              window_response 1 ["A"; "B"] 0 = Some y) as Hall.
    { intros y Hy. simpl in Hy.
      apply elem_of_cons in Hy as [->|Hy]; [left; by apply list_elem_of_here|].
      apply elem_of_cons in Hy as [->|Hy]; [by right|].
      by apply elem_of_nil in Hy. }
    split_and!; try done;
      by apply (proj2 (negatives_never_collide (rnd_const 0) ["A"; "B"]
                         degenerate_world) Hb Hne Hnn Hcs Hall).
Defined.

(** C3.  [ContextResponse(3, 1, 3, 1)] fed the dialogues [A], [B] and
    [C, D, E]: the three calls of the pass are warm-up calls, the last one
    with the counter at [total_dialogues]; the test of the counter is not
    reached, nothing is yielded, and the counter stays past
    [total_dialogues] for ever after: whatever dialogues follow, no call
    enters the replay (no fuel is needed) and the three dialogues stay in
    the deferred set.  [C, D, E], which has two windows, never gives a
    pair. *)
Theorem warmup_on_last_call_skips_flush (rnd : nat → nat) (fuel : nat) :
  @__init__ string 3 1 3 1 = inr fresh_3_1_3_1 ∧
  calls rnd fuel [["A"]; ["B"]; ["C"; "D"; "E"]] (mkWorld fresh_3_1_3_1 0) =
    Some (mkRun (mkWorld stuck_3_1_3_1 0) [] (Returned ())) ∧
  windows 1 ["C"; "D"; "E"] = 2%nat ∧
  ∀ ds, ∃ r,
    calls rnd 0 ds (mkWorld stuck_3_1_3_1 0) = Some r ∧
    [["A"]; ["B"]; ["C"; "D"; "E"]] `prefix_of` initial_samples (self (final r)).
Proof.
  split_and!; [reflexivity| |reflexivity|].
  - unfold calls. cbn [replay].
    do 3 (rewrite call_warmup_run by (vm_compute; reflexivity);
          cbn [result final]).
    reflexivity.
  - intros ds. apply overshoot_calls. simpl. lia.
Qed.

(** C6.  [ContextResponse(5, 3, 4, 1)] fed the dialogue [A, B], shorter
    than the context: [min((2 - 3) * 1, 2)] is -1, and the slice
    [dialogue[:-1]] is [A], not a slice of that length; the next call puts
    [A] in the pool. *)
Theorem carry_over_short_dialogue (rnd : nat → nat) (fuel : nat) :
  @__init__ string 5 3 4 1 = inr fresh_5_3_4_1 ∧
  (((Py.len ["A"; "B"] - context_size fresh_5_3_4_1) * num_negative fresh_5_3_4_1)
     `min` Py.len ["A"; "B"])%Z = (-1)%Z ∧
  __call__ rnd fuel ["A"; "B"] (mkWorld fresh_5_3_4_1 0) =
    Some (mkRun (mkWorld short_5_3_4_1 0) [] (Returned ())) ∧
  prev_utterances short_5_3_4_1 = ["A"] ∧
  __call__ rnd fuel ["C"] (mkWorld short_5_3_4_1 0) =
    Some (mkRun (mkWorld short2_5_3_4_1 0) [] (Returned ())) ∧
  buffer short2_5_3_4_1 = ["B"; "A"; "A"; "C"].
Proof.
  split_and!; try reflexivity;
    rewrite call_warmup_run by (vm_compute; reflexivity); reflexivity.
Qed.

(** C7, as stated, fails.  [ContextResponse(5, 1, 2, 1)] has its pool full,
    with [C, B], after a first call on [A, B, C].  The dialogue
    [D, E, F, G] is then processed in the steady state; it has three
    windows, and the pool, which nothing refills during a call, is empty
    after two: the generator yields the pairs of two windows and raises the
    [IndexError] of line 188. *)
Lemma steady_window_cut_short :
  @__init__ string 5 1 2 1 = inr fresh_5_1_2_1 ∧
  __call__ (rnd_const 0) 0 ["A"; "B"; "C"] (mkWorld fresh_5_1_2_1 0) =
    Some (mkRun (mkWorld warm_5_1_2_1 0) [] (Returned ())) ∧
  steady (begin_call ["D"; "E"; "F"; "G"] warm_5_1_2_1) ∧
  (context_size warm_5_1_2_1 < Py.len ["D"; "E"; "F"; "G"])%Z ∧
  windows 1 ["D"; "E"; "F"; "G"] = 3%nat ∧
  __call__ (rnd_const 0) 0 ["D"; "E"; "F"; "G"] (mkWorld warm_5_1_2_1 0) =
    Some (mkRun
            (mkWorld (mkContextResponse 5 1 2 1 [] [["A"; "B"; "C"]]
                        ["D"; "E"; "F"] 2) 3)
            [mkPair ["D"] "B" 0; mkPair ["D"] "E" 1;
             mkPair ["E"] "C" 0; mkPair ["E"] "F" 1]
            (Raised PoolTooSmall)).
Proof.
  split_and!; try reflexivity.
  split; [unfold warmup, Py.len; simpl; lia|simpl; lia].
Qed.

Lemma steady_windows_complete_witness :
  steady (begin_call ["D"; "E"] warm_5_1_2_1) ∧
  ["D"; "E"] ≠ [] ∧
  (context_size warm_5_1_2_1 < Py.len ["D"; "E"])%Z ∧
  ∃ r, __call__ (rnd_const 0) 0 ["D"; "E"] (mkWorld warm_5_1_2_1 0) = Some r ∧
       result r = Returned () ∧
       length (emitted r) = (windows 1 ["D"; "E"] * 2)%nat ∧
       emitted r !! 0%nat = Some (mkPair ["D"] "B" 0) ∧
       emitted r !! 1%nat = Some (mkPair ["D"] "E" 1).
Proof.
  assert (steady (begin_call ["D"; "E"] warm_5_1_2_1)) as Hs
    by (split; [unfold warmup, Py.len; simpl; lia|simpl; lia]).
  assert (["D"; "E"] ≠ []) as Hd by done.
  assert (context_size warm_5_1_2_1 < Py.len ["D"; "E"])%Z as Hcs
    by (unfold Py.len; simpl; lia).
  split_and!; [done|done|done|].
  destruct (steady_windows_complete (rnd_const 0) 0 ["D"; "E"]
              (mkWorld warm_5_1_2_1 0) Hs Hd Hcs) as (r & Hr & Hshape).
  exists r. split; [exact Hr|].
  assert (r = mkRun (mkWorld (mkContextResponse 5 1 2 1 ["C"] [["A"; "B"; "C"]]
                                ["D"] 2) 1)
                    [mkPair ["D"] "B" 0; mkPair ["D"] "E" 1] (Returned ()))
    as ->.
  { revert Hr. intros [= <-]. reflexivity. }
  split; [reflexivity|].
  split; [exact (proj1 (Hshape eq_refl))|]. split; reflexivity.
Defined.

Lemma call_flush_replays_witness :
  flush (begin_call ["D"; "E"; "F"] warm_2_1_2_1) ∧
  __call__ (rnd_const 0) 1 ["D"; "E"; "F"] (mkWorld warm_2_1_2_1 0) =
    replay (__call__ (rnd_const 0) 0) [["D"; "E"; "F"]; ["A"; "B"; "C"]]
      (mkWorld (mkContextResponse 2 1 2 1 ["C"; "B"] [] ["D"; "E"] 0) 0) ∧
  total_dialogues warm_2_1_2_1 ≠ 1%Z ∧
  ∃ r, ∀ n, (deferred (mkWorld warm_2_1_2_1 0) < n)%nat →
    __call__ (rnd_const 0) n ["D"; "E"; "F"] (mkWorld warm_2_1_2_1 0) = Some r.
Proof.
  assert (flush (begin_call ["D"; "E"; "F"] warm_2_1_2_1)) as Hf
    by (split; [unfold warmup, Py.len; simpl; lia|reflexivity]).
  assert (total_dialogues warm_2_1_2_1 ≠ 1%Z) as Htd by (simpl; lia).
  pose proof (call_flush_replays (rnd_const 0) 0 ["D"; "E"; "F"]
                (mkWorld warm_2_1_2_1 0) Hf) as (_ & _ & _ & Hcall & _ & Hterm).
  split_and!; [done|exact Hcall|done|exact (Hterm Htd)].
Defined.

Lemma call_warmup_fills_witness :
  warmup (begin_call ["A"; "B"; "C"] fresh_5_1_2_1) ∧
  ∃ s', __call__ (rnd_const 0) 0 ["A"; "B"; "C"] (mkWorld fresh_5_1_2_1 0) =
          Some (mkRun (mkWorld s' 0) [] (Returned ())) ∧
        buffer s' = ["C"; "B"] ∧
        initial_samples s' = [["A"; "B"; "C"]].
Proof.
  assert (warmup (begin_call ["A"; "B"; "C"] fresh_5_1_2_1)) as Hw
    by (unfold warmup, Py.len; simpl; lia).
  split; [done|].
  destruct (call_warmup_fills (rnd_const 0) 0 ["A"; "B"; "C"]
              (mkWorld fresh_5_1_2_1 0) Hw)
    as (s' & Hcall & Hbuf & _ & Hdef & _).
  exists s'. split_and!; [exact Hcall|exact Hbuf|exact Hdef].
Defined.

Lemma pool_never_exceeds_buffer_size_witness :
  (@__init__ string 5 1 2 1 = inr fresh_5_1_2_1 ∧ pool_bounded fresh_5_1_2_1) ∧
  (pool_bounded warm_5_1_2_1 ∧
   __call__ (rnd_const 0) 0 ["D"; "E"] (mkWorld warm_5_1_2_1 0) =
     Some (mkRun (mkWorld (mkContextResponse 5 1 2 1 ["C"] [["A"; "B"; "C"]]
                             ["D"] 2) 1)
                 [mkPair ["D"] "B" 0; mkPair ["D"] "E" 1] (Returned ())) ∧
   pool_bounded (mkContextResponse 5 1 2 1 ["C"] [["A"; "B"; "C"]] ["D"] 2)).
Proof.
  pose proof (pool_never_exceeds_buffer_size (U:=string) (rnd_const 0))
    as (Hinit & _ & _ & _ & _ & _ & _ & Hcall & _).
  assert (pool_bounded warm_5_1_2_1) as Hb
    by (unfold pool_bounded, Py.len; simpl; lia).
  split.
  - split; [reflexivity|]. exact (Hinit 5 1 2 1 _ eq_refl)%Z.
  - split; [done|]. split; [reflexivity|].
    exact (Hcall 0%nat ["D"; "E"] (mkWorld warm_5_1_2_1 0) _ Hb eq_refl).
Defined.

Lemma inner_pop_never_raises_witness :
  ((Py.len ["X"] < 2)%Z ∧
   ∃ y c', result (retry (rnd_const 0) ["A"] "B" 2 "A"
                     (mkWorld (mkContextResponse 9 1 2 1 ["X"] [] [] 1) 1))
           = Returned (y, c')) ∧
  (pool_bounded (self last_retry_world) ∧
   result (draw (rnd_const 0) ["A"] "B" 2 last_retry_world) ≠ Raised EmptyPop ∧
   (result (draw (rnd_const 0) ["A"] "B" 2 last_retry_world) = Raised PoolTooSmall →
    buffer (self last_retry_world) = [])).
Proof.
  pose proof (inner_pop_never_raises (U:=string) (rnd_const 0))
    as (_ & Hretry & Hdraw & _).
  split.
  - assert (Py.len ["X"] < 2)%Z as Hroom by (unfold Py.len; simpl; lia).
    split; [done|].
    exact (Hretry ["A"] "B" 2%nat "A"
             (mkWorld (mkContextResponse 9 1 2 1 ["X"] [] [] 1) 1) Hroom).
  - assert (pool_bounded (self last_retry_world)) as Hb
      by (unfold pool_bounded, Py.len; simpl; lia).
    split; [done|].
    exact (Hdraw ["A"] "B" 2%nat last_retry_world Hb).
Defined.

(** [ContextResponse(1, 2, 0, -1)] passes the assertions; its pool has
    capacity 0, so that the first call is no warm-up call and, the counter
    being at [total_dialogues], replays itself without end. *)
Lemma flush_diverges_example (rnd : nat → nat) (fuel : nat) (d : list string) :
  @__init__ string 1 2 0 (-1) = inr (mkContextResponse 1 2 0 (-1) [] [] [] 0) ∧
  __call__ rnd fuel d (mkWorld (mkContextResponse 1 2 0 (-1) [] [] [] 0) 0) = None.
Proof.
  split; [reflexivity|]. apply flush_diverges; [done|].
  split; [unfold warmup, Py.len; simpl; lia|reflexivity].
Qed.

End ExampleRuns.

(** ** Further properties of the pair builder *)

Section BuilderFacts.
Context {U : Type} `{!EqDecision U}.
Context (rnd : nat → nat).
Implicit Types (w : World U) (s : ContextResponse U) (d : list U).

(** *** The size of the contexts *)

Lemma window_context_length cs d i :
  (0 ≤ cs)%Z → is_Some (window_response cs d i) →
  Py.len (window_context cs d i) = cs.
Proof.
  unfold window_response, window_context, Py.index, Py.slice, Py.from_end, Py.len.
  intros Hcs [r Hr].
  destruct (Z.ltb_spec (Z.of_nat i + cs) 0); [lia|].
  destruct (Z.ltb_spec (Z.of_nat i) 0); [lia|].
  destruct (Z.ltb_spec (Z.of_nat i + cs) 0); [lia|].
  apply lookup_lt_Some in Hr.
  rewrite length_drop, length_take. lia.
Qed.

Lemma create_pairs_context_size d w :
  (0 ≤ context_size (self w))%Z →
  Forall (λ p, Py.len (context p) = context_size (self w))
    (emitted (create_pairs rnd d w)).
Proof.
  intros Hcs.
  destruct (create_pairs_sound rnd d w)
    as (_ & negss & tail & -> & Hall & Htail & _).
  apply Forall_app. split.
  - apply Forall_forall. intros p Hp.
    apply list_elem_of_join in Hp as (l & Hp & Hl).
    apply list_elem_of_lookup in Hl as [q Hq].
    apply lookup_zip_with_Some in Hq as (i & negs & -> & Hi & Hq).
    apply lookup_seq in Hi as [-> _]. simpl in *.
    destruct (Hall _ _ Hq) as (_ & Hresp & _).
    pose proof (window_context_length _ d q Hcs Hresp) as Hlen.
    unfold window_pairs, negative_pairs in Hp.
    apply elem_of_app in Hp as [Hp|Hp].
    + apply list_elem_of_fmap in Hp as (y & -> & _). done.
    + destruct Hresp as [r Hr]. rewrite Hr in Hp.
      apply list_elem_of_singleton in Hp as ->. done.
  - apply Forall_forall. intros p Hp.
    unfold negative_pairs in Hp. apply list_elem_of_fmap in Hp as (y & -> & Hy).
    destruct (proj1 (Forall_forall _ _) Htail y Hy) as (_ & r & Hr & _).
    simpl. apply window_context_length; [done|by exists r].
Qed.

(** What holds of the pairs of every sub-call holds of those of a replay. *)
Lemma replay_pairs (f : list U → World U → option (Run ()))
    (I : World U → Prop) (P : Pair U → Prop) :
  (∀ d w r, I w → f d w = Some r → I (final r) ∧ Forall P (emitted r)) →
  ∀ ds w r, I w → replay f ds w = Some r →
    I (final r) ∧ Forall P (emitted r).
Proof.
  intros Hf ds. induction ds as [|d ds IH]; intros w r Hw; simpl.
  { intros [= <-]. by split. }
  destruct (f d w) as [r1|] eqn:Hr1; [|done].
  destruct (Hf _ _ _ Hw Hr1) as [Hw1 Hp1].
  destruct (result r1).
  - destruct (replay f ds (final r1)) as [r2|] eqn:Hr2; [|done].
    intros [= <-]. simpl. destruct (IH (final r1) r2 Hw1 Hr2).
    split; [done|]. by apply Forall_app.
  - by intros [= <-].
Qed.

(** X1.  Whatever the branch a call takes, and whether it returns or an
    exception ends it, the context of every pair it yields has exactly
    [context_size] utterances, provided [context_size] is not negative. *)
Theorem pairs_context_size fuel d w r :
  (0 ≤ context_size (self w))%Z →
  __call__ rnd fuel d w = Some r →
  Forall (λ p, Py.len (context p) = context_size (self w)) (emitted r).
Proof.
  intros Hcs. set (cs := context_size (self w)) in *.
  assert (context_size (self w) = cs) as Hw by done. clearbody cs.
  revert d w r Hw. induction fuel as [|fuel IH]; intros d w r Hw;
    rewrite call_unfold; cbv zeta;
    (destruct (_ <? _)%Z; [by intros [= <-]|]);
    (destruct (_ =? _)%Z;
     [|intros [= <-];
       assert (context_size (self (mkWorld (begin_call d (self w)) (rng w)))
               = cs) as Hw' by exact Hw;
       rewrite <- Hw'; apply create_pairs_context_size; by rewrite Hw']).
  - done.
  - intros Hr.
    apply (replay_pairs (__call__ rnd fuel)
             (λ w', context_size (self w') = cs)
             (λ p, Py.len (context p) = cs)) in Hr; [tauto| |done].
    intros d' w' r' Hw' Hr'. split; [|by apply (IH d' w' r')].
    destruct (call_config rnd _ _ _ _ Hr') as (_ & -> & _). done.
Qed.

(** *** Sampling without replacement *)

Lemma drawn_app (out1 out2 : list (Pair U)) :
  drawn (out1 ++ out2) = drawn out1 ++ drawn out2.
Proof. unfold drawn. by rewrite filter_app, fmap_app. Qed.

Lemma conserving_ret {A} (a : A) : conserving (mret a : @Gen U A).
Proof.
  intros w Hw. split; [done|]. simpl. by rewrite app_nil_r.
Qed.

Lemma conserving_raise {A} e :
  e ≠ LoopDetected → conserving (raise e : @Gen U A).
Proof.
  intros He w Hw. split; [done|]. simpl.
  destruct e; try done; by rewrite app_nil_r.
Qed.

Lemma conserving_yield (p : Pair U) : label p ≠ 0%Z → conserving (yield p).
Proof.
  intros Hp w Hw. split; [done|]. simpl. unfold drawn.
  rewrite filter_cons_False by done. simpl. by rewrite app_nil_r.
Qed.

Lemma conserving_bind {A B} (m : @Gen U A) (k : A → @Gen U B) :
  conserving m → (∀ a, conserving (k a)) → conserving (m ≫= k).
Proof.
  intros Hm Hk w Hw. rewrite bind_run.
  destruct (Hm w Hw) as [Hw1 Hp1].
  destruct (result (m w)) as [a|e] eqn:Hr; simpl.
  - destruct (Hk a (final (m w)) Hw1) as [Hw2 Hp2].
    split; [done|]. simpl. rewrite drawn_app.
    destruct (result (k a (final (m w)))) as [b|[]];
      try (rewrite Hp1, Hp2, <- !app_assoc;
           apply Permutation_app_head, Permutation_app_comm).
    destruct Hp2 as [y Hp2]. exists y. rewrite Hp1, Hp2.
    rewrite <- !app_assoc. apply Permutation_app_head.
    rewrite (app_assoc _ [y]). apply Permutation_app_comm.
  - split; [done|]. by destruct e.
Qed.

Lemma conserving_get_self {A} (k : ContextResponse U → @Gen U A) :
  (∀ s, conserving (k s)) → conserving (get_self ≫= k).
Proof.
  intros Hk. apply conserving_bind; [|done].
  intros w Hw. split; [done|]. simpl. by rewrite app_nil_r.
Qed.

Lemma conserving_for_each {A} (xs : list A) (body : A → @Gen U ()) :
  (∀ a, conserving (body a)) → conserving (for_each xs body).
Proof.
  intros Hb. induction xs as [|a xs IH]; simpl; [apply conserving_ret|].
  by apply conserving_bind.
Qed.

Lemma conserving_draw (context : list U) response c :
  conserving (draw rnd context response c).
Proof.
  intros w Hw.
  destruct (Z.leb_spec (buffer_size (self w)) 0) as [Hle|Hlt].
  { rewrite draw_run. cbv zeta.
    destruct (Z.leb_spec (buffer_size (self w)) 0); [|lia].
    split; [done|]. simpl. by rewrite app_nil_r. }
  destruct (draw_total rnd context response c w Hw Hlt)
    as [(_ & Hr & He & Hf)|(y & c' & b & Hf & _ & Hperm & Hres)].
  { split; [by rewrite Hf|]. rewrite Hr, He, Hf. simpl. by rewrite app_nil_r. }
  split.
  - rewrite Hf. unfold pool_bounded, Py.len in *. simpl.
    apply Permutation_length in Hperm. rewrite length_app in Hperm.
    simpl in Hperm. lia.
  - destruct Hres as [(_ & _ & -> & ->)|(_ & -> & ->)]; rewrite Hf; simpl.
    + by rewrite Hperm.
    + exists y. by rewrite Hperm.
Qed.

Lemma conserving_draws (context : list U) response n c :
  conserving (draws rnd context response n c).
Proof.
  revert c. induction n as [|n IH]; intros c; simpl; [apply conserving_ret|].
  apply conserving_bind; [apply conserving_draw|done].
Qed.

Lemma conserving_window d i : conserving (window rnd d i).
Proof.
  unfold window. apply conserving_get_self. intros s.
  destruct (Py.index d _); [|by apply conserving_raise].
  apply conserving_get_self. intros s'.
  apply conserving_bind; [apply conserving_draws|]. intros _.
  by apply conserving_yield.
Qed.

Lemma conserving_create_pairs d : conserving (create_pairs rnd d).
Proof.
  unfold create_pairs. apply conserving_get_self. intros s.
  destruct (_ || _); [apply conserving_ret|].
  apply conserving_for_each, conserving_window.
Qed.

(** X2.  Sampling is without replacement and loses nothing: when
    [create_pairs] is run on a pool within its bound, the utterances of the
    pool it started with are those still in the pool together with the
    responses of the label-0 pairs it has yielded, each as many times; only
    when the loop exception is raised is one more utterance gone, the
    candidate that was in hand. *)
Theorem sampling_conserves_pool d w :
  pool_bounded (self w) →
  let r := create_pairs rnd d w in
  match result r with
  | Raised LoopDetected =>
      ∃ y, buffer (self w) ≡ₚ buffer (self (final r)) ++ drawn (emitted r) ++ [y]
  | _ => buffer (self w) ≡ₚ buffer (self (final r)) ++ drawn (emitted r)
  end.
Proof. intros Hw. by destruct (conserving_create_pairs d w Hw). Qed.

(** *** What the carry-over gives back *)

Lemma drawn_negative_pairs (context negs : list U) :
  drawn (negative_pairs context negs) = negs.
Proof.
  unfold drawn, negative_pairs. induction negs as [|y negs IH]; [done|].
  rewrite fmap_cons, filter_cons_True, fmap_cons by done.
  f_equal. exact IH.
Qed.

Lemma drawn_window_pairs cs d i (negs : list U) :
  drawn (window_pairs cs d i negs) = negs.
Proof.
  unfold window_pairs. rewrite drawn_app, drawn_negative_pairs.
  destruct (window_response cs d i); [|by rewrite app_nil_r].
  unfold drawn. rewrite filter_cons_False by done. by rewrite app_nil_r.
Qed.

Lemma drawn_chunks cs d a (negss : list (list U)) :
  drawn (mjoin (zip_with (window_pairs cs d) (seq a (length negss)) negss))
  = mjoin negss.
Proof.
  revert a. induction negss as [|negs negss IH]; intros a; [done|].
  simpl. by rewrite drawn_app, drawn_window_pairs, IH.
Qed.

(** A run of [create_pairs] that returns has taken [num_negative]
    utterances per window. *)
Lemma create_pairs_drawn_length d w :
  d ≠ [] → (context_size (self w) < Py.len d)%Z →
  result (create_pairs rnd d w) = Returned () →
  length (drawn (emitted (create_pairs rnd d w))) =
    windows (context_size (self w)) d * negatives (self w).
Proof.
  intros Hd Hcs Hret.
  destruct (create_pairs_sound rnd d w)
    as (_ & negss & tail & He & Hall & _ & Hr).
  rewrite Hret in Hr. destruct Hr as [-> Hlen].
  rewrite bool_decide_eq_false_2 in Hlen by done.
  rewrite (proj2 (Z.ltb_lt _ _) Hcs) in Hlen. simpl in Hlen.
  rewrite He, drawn_app, drawn_chunks, drawn_negative_pairs, app_nil_r.
  rewrite (chunks_length (negatives (self w))), Hlen; [done|].
  apply Forall_lookup. intros k negs Hk. by destruct (Hall _ _ Hk).
Qed.

(** X3.  After a steady call that returns, the carry-over of the dialogue
    gives back to the pool, at the start of the next call, what sampling
    took, up to the length of the dialogue: with
    [used = (len(d) - context_size) * num_negative], the next call finds
    [buffer_size - (used - min(used, len(d)))] utterances once line 149 has
    run.  So the next call is a warm-up call exactly when [used] exceeds
    [len(d)]: never when [num_negative] is 1 and [context_size] is not
    negative. *)
Theorem carry_over_refills fuel d w r d' :
  pool_bounded (self w) →
  steady (begin_call d (self w)) →
  d ≠ [] → (context_size (self w) < Py.len d)%Z →
  (0 ≤ num_negative (self w))%Z →
  __call__ rnd fuel d w = Some r → result r = Returned () →
  let used := ((Py.len d - context_size (self w)) * num_negative (self w))%Z in
  Py.len (buffer (begin_call d' (self (final r)))) =
    (buffer_size (self w) - (used - used `min` Py.len d))%Z ∧
  (warmup (begin_call d' (self (final r))) ↔ (Py.len d < used)%Z).
Proof.
  intros Hb Hs Hd Hcs Hnn Hr Hret used.
  rewrite call_steady_run in Hr by done. injection Hr as <-.
  set (w0 := mkWorld (begin_call d (self w)) (rng w)) in *.
  assert (pool_bounded (self w0)) as Hb0 by by apply begin_call_bounded.
  destruct (conserving_create_pairs d w0 Hb0) as [Hbf Hperm].
  rewrite Hret in Hperm.
  destruct (create_pairs_sound rnd d w0) as [Hstep _].
  destruct (pool_step_config _ _ Hstep) as (_ & _ & Hbs & _ & _ & _ & Hprev).
  pose proof (create_pairs_drawn_length d w0 Hd Hcs Hret) as Hlen.
  apply Permutation_length in Hperm. rewrite length_app, Hlen in Hperm.
  assert (Py.len (buffer (self w0)) = buffer_size (self w))%Z as Hfull.
  { destruct Hs as [Hs _]. unfold warmup, pool_bounded in *. simpl in *. lia. }
  assert (Z.of_nat (windows (context_size (self w0)) d * negatives (self w0))
          = used) as Hused.
  { unfold windows, negatives, used. simpl. nia. }
  assert (0 ≤ used)%Z as Hpos by (unfold used; nia).
  destruct (next_prev_leading d (carry_over (set_counter (counter (self w) + 1)
                                               (self w)))) as [_ Hplen];
    [done|].
  change (next_prev d _) with (self w0) in Hplen.
  change (context_size (carry_over _)) with (context_size (self w)) in Hplen.
  change (num_negative (carry_over _)) with (num_negative (self w)) in Hplen.
  fold used in Hplen.
  set (sf := self (final (create_pairs rnd d w0))) in *.
  assert (Py.len (buffer (begin_call d' sf)) =
          (buffer_size (self w) - (used - used `min` Py.len d))%Z) as Hgoal.
  { change (buffer (begin_call d' sf))
      with (buffer (carry_over (set_counter (counter sf + 1) sf))).
    rewrite carry_over_buffer by done. simpl.
    unfold Py.len in *. rewrite length_app, length_take, Hprev.
    simpl in Hbs. rewrite Hbs. lia. }
  split; [done|].
  unfold warmup. rewrite Hgoal.
  change (buffer_size (begin_call d' sf)) with (buffer_size sf).
  simpl in Hbs. rewrite Hbs. lia.
Qed.

(** *** The counter and the replay *)

(** X4.  When the call that brings the counter to [total_dialogues] still
    finds the pool below capacity, it is a warm-up call: it yields nothing,
    the test of the counter is skipped, and from then on no call ever
    replays, whatever dialogues follow (no fuel is needed for them): the
    deferred dialogues, this one included, stay deferred. *)
Theorem missed_flush_is_final d w :
  (counter (self w) + 1)%Z = total_dialogues (self w) →
  warmup (begin_call d (self w)) →
  ∃ r, (∀ fuel, __call__ rnd fuel d w = Some r) ∧
       emitted r = [] ∧ result r = Returned () ∧
       ∀ ds, ∃ r',
         calls rnd 0 ds (final r) = Some r' ∧
         (initial_samples (self w) ++ [d]) `prefix_of`
           initial_samples (self (final r')).
Proof.
  intros Hc Hw. eexists. split; [intros fuel; by apply call_warmup_run|].
  split; [done|]. split; [done|]. intros ds.
  apply overshoot_calls. simpl. lia.
Qed.

(** X5.  A call finishes in every case but one.  When [total_dialogues] is
    1 and the call finds the pool at capacity as the counter comes to 1, the
    recursion of line 166 has no end: the replay starts with the same
    dialogue, the counter comes to 1 again and the pool is still at
    capacity.  In every other state the call ends, with the same run
    whatever fuel is given beyond the number of deferred dialogues. *)
Theorem call_ends_unless_single d w :
  (total_dialogues (self w) = 1%Z ∧ flush (begin_call d (self w)) ∧
   ∀ fuel, __call__ rnd fuel d w = None) ∨
  (¬ (total_dialogues (self w) = 1%Z ∧ flush (begin_call d (self w))) ∧
   ∃ r, ∀ fuel, deferred w < fuel → __call__ rnd fuel d w = Some r).
Proof.
  destruct (decide (total_dialogues (self w) = 1%Z)) as [Htd|Htd].
  - destruct (call_branches d (begin_call d (self w))) as [Hw|[Hf|Hs]].
    + right. split; [by intros [_ [Hnw _]]|].
      eexists. intros fuel _. by apply call_warmup_run.
    + left. split_and!; [done|done|]. intros fuel. by apply flush_diverges.
    + right. split; [intros [_ [_ Hc]]; by destruct Hs|].
      eexists. intros fuel _. by apply call_steady_run.
  - right. split; [by intros [? _]|]. by apply call_terminates.
Qed.

(** *** The true pairs *)

Lemma truths_app (out1 out2 : list (Pair U)) :
  truths (out1 ++ out2) = truths out1 ++ truths out2.
Proof. apply filter_app. Qed.

Lemma truths_negative_pairs (context negs : list U) :
  truths (negative_pairs context negs) = [].
Proof.
  unfold truths, negative_pairs. induction negs as [|y negs IH]; [done|].
  rewrite fmap_cons, filter_cons_False by done. exact IH.
Qed.

Lemma truths_window_pairs cs d i (negs : list U) :
  truths (window_pairs cs d i negs) = positives cs d i 1.
Proof.
  unfold window_pairs, positives. rewrite truths_app, truths_negative_pairs.
  simpl. by destruct (window_response cs d i).
Qed.

Lemma positives_S cs d a n :
  positives cs d a (S n) = positives cs d a 1 ++ positives cs d (S a) n.
Proof.
  unfold positives. simpl. by destruct (window_response cs d a).
Qed.

Lemma truths_chunks cs d a (negss : list (list U)) :
  truths (mjoin (zip_with (window_pairs cs d) (seq a (length negss)) negss))
  = positives cs d a (length negss).
Proof.
  revert a. induction negss as [|negs negss IH]; intros a; [done|].
  simpl length. rewrite positives_S. simpl.
  by rewrite truths_app, truths_window_pairs, IH.
Qed.

Lemma positives_length cs d a n :
  (∀ k, k < n → is_Some (window_response cs d (a + k))) →
  length (positives cs d a n) = n.
Proof.
  revert a. induction n as [|n IH]; intros a H; [done|].
  rewrite positives_S, length_app, IH.
  - unfold positives. simpl.
    destruct (H 0) as [r Hr]; [lia|]. rewrite Nat.add_0_r in Hr.
    by rewrite Hr.
  - intros k Hk. replace (S a + k) with (a + S k) by lia. apply H. lia.
Qed.

(** X6.  In every run of [create_pairs], returning or not, the label-1
    pairs yielded are, in order, the true pairs
    [(d[i : i + context_size], d[i + context_size])] of the first [k]
    windows of the dialogue, for some [k] up to their number: they do not
    depend on the pool or on the pseudo-random sequence.  When the run
    returns on a non-empty dialogue longer than the context, all windows
    are there. *)
Theorem label_one_pairs_are_true d w :
  let r := create_pairs rnd d w in
  let cs := context_size (self w) in
  ∃ k, k ≤ windows cs d ∧
    truths (emitted r) = positives cs d 0 k ∧
    length (truths (emitted r)) = k ∧
    (d ≠ [] → (cs < Py.len d)%Z → result r = Returned () → k = windows cs d).
Proof.
  cbv zeta.
  destruct (create_pairs_sound rnd d w)
    as (_ & negss & tail & He & Hall & _ & Hr).
  exists (length negss).
  assert (truths (emitted (create_pairs rnd d w))
          = positives (context_size (self w)) d 0 (length negss)) as Ht.
  { by rewrite He, truths_app, truths_chunks, truths_negative_pairs, app_nil_r. }
  split_and!.
  - destruct (result (create_pairs rnd d w)); [|lia].
    destruct Hr as [_ ->]. destruct (_ || _); lia.
  - done.
  - rewrite Ht. apply positives_length. intros k Hk.
    destruct (lookup_lt_is_Some_2 negss k Hk) as [negs Hnegs].
    by destruct (Hall _ _ Hnegs) as (_ & ? & _).
  - intros Hd Hcs Hret. rewrite Hret in Hr. destruct Hr as [_ ->].
    rewrite bool_decide_eq_false_2 by done.
    by rewrite (proj2 (Z.ltb_lt _ _) Hcs).
Qed.

(** *** Where the utterances of the pairs come from *)

Lemma slice_to_subseteq {A} (l : list A) k : Py.slice_to l k ⊆ l.
Proof. apply subseteq_take. Qed.

Lemma window_context_subseteq cs d i : window_context cs d i ⊆ d.
Proof.
  unfold window_context, Py.slice. etrans; [apply subseteq_drop|apply subseteq_take].
Qed.

Lemma window_response_elem cs d i r : window_response cs d i = Some r → r ∈ d.
Proof.
  unfold window_response, Py.index. destruct (_ <? _)%Z; [done|].
  apply list_elem_of_lookup_2.
Qed.

(** Every pair of [create_pairs] is a pair of some window of the dialogue:
    a negative, or the true pair of the window. *)
Lemma create_pairs_elem d w p :
  p ∈ emitted (create_pairs rnd d w) →
  ∃ i, context p = window_context (context_size (self w)) d i ∧
       (label p = 0%Z ∨
        (label p = 1%Z ∧
         window_response (context_size (self w)) d i = Some (response p))).
Proof.
  destruct (create_pairs_sound rnd d w)
    as (_ & negss & tail & -> & Hall & Htail & _).
  intros [Hp|Hp]%elem_of_app.
  - apply list_elem_of_join in Hp as (l & Hp & Hl).
    apply list_elem_of_lookup in Hl as [q Hq].
    apply lookup_zip_with_Some in Hq as (i & negs & -> & Hi & Hq).
    apply lookup_seq in Hi as [-> _]. simpl in *. exists q.
    unfold window_pairs, negative_pairs in Hp.
    apply elem_of_app in Hp as [Hp|Hp].
    + apply list_elem_of_fmap in Hp as (y & -> & _). split; [done|by left].
    + destruct (window_response _ d q) as [r|] eqn:Hr;
        [|by apply elem_of_nil in Hp].
      apply list_elem_of_singleton in Hp as ->. split; [done|by right].
  - unfold negative_pairs in Hp. apply list_elem_of_fmap in Hp as (y & -> & _).
    eexists. split; [done|by left].
Qed.

Lemma create_pairs_from_pool d w :
  pool_bounded (self w) →
  let r := create_pairs rnd d w in
  pool_bounded (self (final r)) ∧
  buffer (self (final r)) ⊆ buffer (self w) ∧
  ∀ p, p ∈ emitted r →
    (response p ∈ buffer (self w) ∨ response p ∈ d) ∧ context p ⊆ d.
Proof.
  intros Hb. cbv zeta.
  destruct (conserving_create_pairs d w Hb) as [Hbf Hperm].
  assert (buffer (self (final (create_pairs rnd d w))) ++
          drawn (emitted (create_pairs rnd d w)) ⊆ buffer (self w)) as Hsub.
  { intros x Hx.
    destruct (result (create_pairs rnd d w)) as [|[]];
      try (by rewrite Hperm).
    destruct Hperm as [y ->]. rewrite app_assoc. apply elem_of_app. by left. }
  split; [done|]. split.
  { intros x Hx. apply Hsub, elem_of_app. by left. }
  intros p Hp.
  destruct (create_pairs_elem d w p Hp) as (i & -> & [Hl|[_ Hr]]).
  - split; [|apply window_context_subseteq]. left.
    apply Hsub, elem_of_app. right. unfold drawn.
    apply list_elem_of_fmap. exists p. split; [done|].
    by apply list_elem_of_filter.
  - split; [|apply window_context_subseteq]. right.
    by eapply window_response_elem.
Qed.

Lemma begin_call_from_corpus seen d s :
  d ∈ seen → from_corpus seen s → from_corpus seen (begin_call d s).
Proof.
  intros Hd (Hb & Hbuf & Hprev & Hdef).
  assert (d ⊆ mjoin seen) as Hsub.
  { intros x Hx. apply list_elem_of_join. eauto. }
  split_and!.
  - by apply begin_call_bounded.
  - change (buffer (begin_call d s))
      with (buffer (carry_over (set_counter (counter s + 1) s))).
    rewrite carry_over_buffer by done. simpl.
    intros x [Hx|Hx]%elem_of_app; [by apply Hbuf|].
    apply Hprev. by eapply subseteq_take.
  - simpl. etrans; [apply slice_to_subseteq|done].
  - done.
Qed.

Lemma warmup_from_corpus seen d s :
  d ∈ seen → from_corpus seen s →
  from_corpus seen
    (set_initial_samples (initial_samples s ++ [d])
       (set_buffer (warmup_fill (buffer_size s) d (length d) (buffer s)) s)).
Proof.
  intros Hd (Hb & Hbuf & Hprev & Hdef).
  assert (d ⊆ mjoin seen) as Hsub.
  { intros x Hx. apply list_elem_of_join. eauto. }
  split_and!.
  - by apply warmup_fill_bounded.
  - simpl. rewrite warmup_fill_take, firstn_all by done.
    intros x [Hx|Hx]%elem_of_app; [by apply Hbuf|].
    apply Hsub, elem_of_reverse. by eapply subseteq_take.
  - done.
  - simpl. intros x [Hx|Hx]%elem_of_app; [by apply Hdef|].
    by apply list_elem_of_singleton in Hx as ->.
Qed.

Lemma steady_from_corpus seen d w :
  d ∈ seen → from_corpus seen (self w) →
  from_corpus seen (self (final (create_pairs rnd d w))) ∧
  Forall (λ p, response p ∈ mjoin seen ∧ context p ⊆ mjoin seen)
    (emitted (create_pairs rnd d w)).
Proof.
  intros Hd (Hb & Hbuf & Hprev & Hdef).
  assert (d ⊆ mjoin seen) as Hsub.
  { intros x Hx. apply list_elem_of_join. eauto. }
  destruct (create_pairs_from_pool d w Hb) as (Hbf & Hsubf & Hpairs).
  destruct (create_pairs_sound rnd d w) as [Hstep _].
  destruct (pool_step_config _ _ Hstep) as (_ & _ & _ & _ & _ & Hi & Hp).
  split.
  - split_and!; [done|by etrans|by rewrite Hp|by rewrite Hi].
  - apply Forall_forall. intros p Hin.
    destruct (Hpairs p Hin) as [Hresp Hctx].
    split; [destruct Hresp; [by apply Hbuf|by apply Hsub]|by etrans].
Qed.

Lemma replay_from_corpus seen (f : list U → World U → option (Run ())) :
  (∀ d w r, d ∈ seen → from_corpus seen (self w) → f d w = Some r →
     from_corpus seen (self (final r)) ∧
     Forall (λ p, response p ∈ mjoin seen ∧ context p ⊆ mjoin seen) (emitted r)) →
  ∀ ds w r, ds ⊆ seen → from_corpus seen (self w) → replay f ds w = Some r →
    from_corpus seen (self (final r)) ∧
    Forall (λ p, response p ∈ mjoin seen ∧ context p ⊆ mjoin seen) (emitted r).
Proof.
  intros Hf ds. induction ds as [|d ds IH]; intros w r Hds Hw; simpl.
  { intros [= <-]. by split. }
  destruct (f d w) as [r1|] eqn:Hr1; [|done].
  destruct (Hf d w r1) as [Hw1 Hp1]; [apply Hds; by left|done|done|].
  destruct (result r1).
  - destruct (replay f ds (final r1)) as [r2|] eqn:Hr2; [|done].
    intros [= <-]. simpl.
    destruct (IH (final r1) r2) as [Hw2 Hp2];
      [intros x Hx; apply Hds; by right|done|done|].
    split; [done|]. by apply Forall_app.
  - by intros [= <-].
Qed.

(** A call keeps the utterances of the object within the dialogues seen,
    and so the utterances of its pairs. *)
Lemma call_from_corpus seen fuel d w r :
  d ∈ seen → from_corpus seen (self w) → __call__ rnd fuel d w = Some r →
  from_corpus seen (self (final r)) ∧
  Forall (λ p, response p ∈ mjoin seen ∧ context p ⊆ mjoin seen) (emitted r).
Proof.
  revert d w r. induction fuel as [|fuel IH]; intros d w r Hd Hw Hr;
    pose proof (begin_call_from_corpus seen d _ Hd Hw) as Hb;
    destruct (call_branches d (begin_call d (self w))) as [Hwm|[Hf|Hst]].
  - rewrite call_warmup_run in Hr by done. injection Hr as <-.
    split; [exact (warmup_from_corpus seen d _ Hd Hb)|done].
  - rewrite call_unfold in Hr. cbv zeta in Hr. destruct Hf as [Hnw Hc].
    unfold warmup in Hnw. rewrite (proj2 (Z.ltb_ge _ _)) in Hr by lia.
    by rewrite (proj2 (Z.eqb_eq _ _) Hc) in Hr.
  - rewrite call_steady_run in Hr by done. injection Hr as <-.
    by apply (steady_from_corpus seen d (mkWorld (begin_call d (self w)) (rng w))).
  - rewrite call_warmup_run in Hr by done. injection Hr as <-.
    split; [exact (warmup_from_corpus seen d _ Hd Hb)|done].
  - rewrite call_flush_run in Hr by done.
    destruct Hb as (Hb & Hbuf & Hprev & Hdef).
    apply (replay_from_corpus seen (__call__ rnd fuel) IH) in Hr; [done| |].
    + intros x [->|Hx]%elem_of_cons; [done|]. by apply Hdef.
    + split_and!; try done. simpl. apply list_subseteq_nil.
  - rewrite call_steady_run in Hr by done. injection Hr as <-.
    by apply (steady_from_corpus seen d (mkWorld (begin_call d (self w)) (rng w))).
Qed.

(** X7.  Nothing is made up: over any sequence of calls on a new object,
    the response of every pair yielded, and every utterance of its context,
    is an utterance of one of the dialogues supplied. *)
Theorem pairs_from_corpus td cs bs nn s fuel ds n r :
  __init__ td cs bs nn = inr s →
  calls rnd fuel ds (mkWorld s n) = Some r →
  Forall (λ p, response p ∈ mjoin ds ∧ context p ⊆ mjoin ds) (emitted r).
Proof.
  intros Hinit Hr.
  assert (from_corpus ds s) as Hs.
  { revert Hinit. unfold __init__.
    destruct (negb _); [done|]. destruct (negb _); [done|].
    destruct (Z.ltb_spec bs 0); [done|]. intros [= <-].
    split_and!; simpl; try apply list_subseteq_nil.
    unfold pool_bounded, Py.len. simpl. lia. }
  unfold calls in Hr.
  apply (replay_from_corpus ds (__call__ rnd fuel)) in Hr; [tauto| |done|done].
  intros d w' r'. apply call_from_corpus.
Qed.

End BuilderFacts.


(** * Runs of the examples *)

Section BuilderExampleRuns.
Local Open Scope string_scope.

Lemma pairs_context_size_witness :
  (0 ≤ context_size (self (mkWorld warm_5_1_2_1 0)))%Z ∧
  ∃ r, __call__ (rnd_const 0) 0 ["D"; "E"] (mkWorld warm_5_1_2_1 0) = Some r ∧
       emitted r = [mkPair ["D"] "B" 0; mkPair ["D"] "E" 1] ∧
       Forall (λ p, Py.len (context p) = 1%Z) (emitted r).
Proof.
  assert (0 ≤ context_size (self (mkWorld warm_5_1_2_1 0)))%Z as Hcs
    by (simpl; lia).
  split; [exact Hcs|]. eexists. split; [reflexivity|]. split; [reflexivity|].
  exact (pairs_context_size (rnd_const 0) 0 ["D"; "E"]
           (mkWorld warm_5_1_2_1 0) _ Hcs eq_refl).
Defined.

Lemma sampling_conserves_pool_witness :
  (pool_bounded (self (mkWorld warm_5_1_2_1 0)) ∧
   result (create_pairs (rnd_const 0) ["D"; "E"] (mkWorld warm_5_1_2_1 0))
     = Returned () ∧
   ["C"; "B"] ≡ₚ ["C"] ++ drawn [mkPair ["D"] "B" 0; mkPair ["D"] "E" 1]) ∧
  (pool_bounded (self degenerate_world) ∧
   result (create_pairs (rnd_const 0) ["A"; "B"] degenerate_world)
     = Raised LoopDetected ∧
   ∃ y, ["A"; "B"] ≡ₚ ["A"] ++ drawn [] ++ [y]).
Proof.
  assert (pool_bounded (self (mkWorld warm_5_1_2_1 0))) as Hb
    by (unfold pool_bounded, Py.len; simpl; lia).
  assert (pool_bounded (self degenerate_world)) as Hb'
    by (unfold pool_bounded, Py.len; simpl; lia).
  split; (split; [done|]); (split; [reflexivity|]).
  - exact (sampling_conserves_pool (rnd_const 0) ["D"; "E"]
             (mkWorld warm_5_1_2_1 0) Hb).
  - exact (sampling_conserves_pool (rnd_const 0) ["A"; "B"]
             degenerate_world Hb').
Defined.

Lemma carry_over_refills_witness :
  calls (rnd_const 0) 0 [["Z"; "Y"; "X"; "W"]] (mkWorld fresh_9_1_4_3 0)
    = Some (mkRun (mkWorld warm_9_1_4_3 0) [] (Returned ())) ∧
  pool_bounded (self (mkWorld warm_9_1_4_3 0)) ∧
  steady (begin_call ["D"; "E"] warm_9_1_4_3) ∧
  ∃ r, __call__ (rnd_const 0) 0 ["D"; "E"] (mkWorld warm_9_1_4_3 0) = Some r ∧
       result r = Returned () ∧
       buffer (self (final r)) = ["W"] ∧
       Py.len (buffer (begin_call ["F"] (self (final r)))) = (4 - (3 - 2))%Z ∧
       warmup (begin_call ["F"] (self (final r))).
Proof.
  assert (pool_bounded (self (mkWorld warm_9_1_4_3 0))) as Hb
    by (unfold pool_bounded, Py.len; simpl; lia).
  assert (steady (begin_call ["D"; "E"] (self (mkWorld warm_9_1_4_3 0)))) as Hs
    by (split; [unfold warmup, Py.len; simpl; lia|simpl; lia]).
  assert (["D"; "E"] ≠ []) as Hd by done.
  assert (context_size (self (mkWorld warm_9_1_4_3 0)) < Py.len ["D"; "E"])%Z
    as Hcs by (unfold Py.len; simpl; lia).
  assert (0 ≤ num_negative (self (mkWorld warm_9_1_4_3 0)))%Z as Hnn
    by (simpl; lia).
  pose (r := mkRun (mkWorld (mkContextResponse 9 1 4 3 ["W"]
                               [["Z"; "Y"; "X"; "W"]] ["D"; "E"] 2) 3)
                   [mkPair ["D"] "Z" 0; mkPair ["D"] "Y" 0;
                    mkPair ["D"] "X" 0; mkPair ["D"] "E" 1] (Returned ())).
  assert (__call__ (rnd_const 0) 0 ["D"; "E"] (mkWorld warm_9_1_4_3 0) = Some r)
    as Hr by reflexivity.
  assert (result r = Returned ()) as Hret by reflexivity.
  split; [reflexivity|]. split; [exact Hb|]. split; [exact Hs|].
  exists r. split; [exact Hr|]. split; [exact Hret|]. split; [reflexivity|].
  destruct (carry_over_refills (rnd_const 0) 0 ["D"; "E"]
              (mkWorld warm_9_1_4_3 0) r ["F"] Hb Hs Hd Hcs Hnn Hr Hret)
    as [Hlen Hwarm].
  split; [exact Hlen|]. apply Hwarm. unfold Py.len. simpl. lia.
Defined.

Lemma missed_flush_is_final_witness :
  calls (rnd_const 0) 0 [["A"]; ["B"]] (mkWorld fresh_3_1_3_1 0)
    = Some (mkRun (mkWorld two_calls_3_1_3_1 0) [] (Returned ())) ∧
  (counter two_calls_3_1_3_1 + 1)%Z = total_dialogues two_calls_3_1_3_1 ∧
  warmup (begin_call ["C"; "D"; "E"] two_calls_3_1_3_1) ∧
  windows 1 ["C"; "D"; "E"] = 2%nat ∧
  ∃ r, (∀ fuel, __call__ (rnd_const 0) fuel ["C"; "D"; "E"]
                  (mkWorld two_calls_3_1_3_1 0) = Some r) ∧
       emitted r = [] ∧ result r = Returned () ∧
       ∀ ds, ∃ r',
         calls (rnd_const 0) 0 ds (final r) = Some r' ∧
         [["A"]; ["B"]; ["C"; "D"; "E"]] `prefix_of`
           initial_samples (self (final r')).
Proof.
  assert ((counter (self (mkWorld two_calls_3_1_3_1 0)) + 1)%Z
          = total_dialogues (self (mkWorld two_calls_3_1_3_1 0))) as Hc
    by reflexivity.
  assert (warmup (begin_call ["C"; "D"; "E"]
                    (self (mkWorld two_calls_3_1_3_1 0)))) as Hw
    by (unfold warmup, Py.len; simpl; lia).
  split; [reflexivity|]. split; [exact Hc|]. split; [exact Hw|].
  split; [reflexivity|].
  exact (missed_flush_is_final (rnd_const 0) ["C"; "D"; "E"]
           (mkWorld two_calls_3_1_3_1 0) Hc Hw).
Defined.

Lemma label_one_pairs_are_true_witness :
  ∃ k : nat, (k ≤ windows 1 ["D"; "E"])%nat ∧
    truths (emitted (create_pairs (rnd_const 0) ["D"; "E"]
                       (mkWorld warm_5_1_2_1 0)))
      = positives 1 ["D"; "E"] 0 k ∧
    k = 1%nat ∧
    positives 1 ["D"; "E"] 0 k = [mkPair ["D"] "E" 1].
Proof.
  destruct (label_one_pairs_are_true (rnd_const 0) ["D"; "E"]
              (mkWorld warm_5_1_2_1 0)) as (k & Hk & Ht & Hlen & Hall).
  exists k. split; [exact Hk|]. split; [exact Ht|].
  assert (k = 1%nat) as ->.
  { rewrite <- Hlen. reflexivity. }
  split; reflexivity.
Defined.

Lemma pairs_from_corpus_witness :
  @__init__ string 5 1 2 1 = inr fresh_5_1_2_1 ∧
  ∃ r, calls (rnd_const 0) 0 [["A"; "B"; "C"]; ["D"; "E"]]
         (mkWorld fresh_5_1_2_1 0) = Some r ∧
       emitted r = [mkPair ["D"] "B" 0; mkPair ["D"] "E" 1] ∧
       Forall (λ p, response p ∈ ["A"; "B"; "C"; "D"; "E"] ∧
                    context p ⊆ ["A"; "B"; "C"; "D"; "E"]) (emitted r).
Proof.
  pose (r := mkRun (mkWorld (mkContextResponse 5 1 2 1 ["C"] [["A"; "B"; "C"]]
                               ["D"] 2) 1)
                   [mkPair ["D"] "B" 0; mkPair ["D"] "E" 1] (Returned ())).
  assert (@__init__ string 5 1 2 1 = inr fresh_5_1_2_1) as Hinit
    by reflexivity.
  assert (calls (rnd_const 0) 0 [["A"; "B"; "C"]; ["D"; "E"]]
            (mkWorld fresh_5_1_2_1 0) = Some r) as Hr by reflexivity.
  split; [exact Hinit|]. exists r. split; [exact Hr|]. split; [reflexivity|].
  exact (pairs_from_corpus (rnd_const 0) 5 1 2 1 fresh_5_1_2_1 0
           [["A"; "B"; "C"]; ["D"; "E"]] 0 r Hinit Hr).
Defined.

End BuilderExampleRuns.

(** * The record stream *)

Section StreamFacts.
Implicit Types (l file : list Z) (lns : list (list Z)) (p : nat).

Lemma first_line_nil l : Stream.first_line l = [] ↔ l = [].
Proof.
  destruct l as [|b l]; simpl; [done|].
  by destruct (b =? Stream.newline)%Z.
Qed.

Lemma lines_nil l : Stream.lines l = [] ↔ l = [].
Proof.
  destruct l as [|b l]; simpl; [done|].
  destruct (b =? Stream.newline)%Z; [done|].
  by destruct (Stream.lines l).
Qed.

(** The first line read is the first of the lines, and the lines of what
    follows it are the others. *)
Lemma lines_first_line l :
  l ≠ [] →
  Stream.lines l =
    Stream.first_line l
      :: Stream.lines (drop (length (Stream.first_line l)) l).
Proof.
  induction l as [|b l IH]; [done|]. intros _. simpl.
  destruct (b =? Stream.newline)%Z; [done|]. simpl.
  destruct l as [|b' l]; [done|].
  by rewrite IH.
Qed.

Lemma first_line_take l :
  Stream.first_line l = take (length (Stream.first_line l)) l.
Proof.
  induction l as [|b l IH]; simpl; [done|].
  destruct (b =? Stream.newline)%Z; simpl; [by rewrite take_0|].
  by rewrite <- IH.
Qed.

Lemma join_lines l : mjoin (Stream.lines l) = l.
Proof.
  induction l as [|b l IH]; simpl; [done|].
  destruct (b =? Stream.newline)%Z; simpl; [by rewrite IH|].
  destruct (Stream.lines l) as [|ln lns]; simpl in *; by rewrite <- IH.
Qed.

Lemma length_lines l : length (Stream.lines l) ≤ length l.
Proof.
  induction l as [|b l IH]; simpl; [done|].
  destruct (b =? Stream.newline)%Z; simpl; [lia|].
  destruct (Stream.lines l); simpl in *; lia.
Qed.

(** No line is empty; each ends with its newline and has no other, but
    for the last, which may have none. *)
Lemma lines_shape l i ln :
  Stream.lines l !! i = Some ln →
  ln ≠ [] ∧
  (∀ j b, ln !! j = Some b → b = Stream.newline → S j = length ln) ∧
  (S i < length (Stream.lines l) → last ln = Some Stream.newline).
Proof.
  revert i ln. induction l as [|b l IH]; intros i ln; simpl; [done|].
  destruct (Z.eqb_spec b Stream.newline) as [->|Hb].
  - destruct i as [|i]; simpl.
    + intros [= <-]. split; [done|]. split; [|done].
      by intros [|j] b' Hj; [|destruct j].
    + intros Hi. destruct (IH _ _ Hi) as (? & ? & ?).
      split_and!; [done|done|]. intros. apply H1. lia.
  - destruct (Stream.lines l) as [|ln' lns] eqn:Hl.
    + destruct i as [|i]; [|done]. intros [= <-]. split; [done|].
      split; [|simpl; lia].
      intros [|j] b' Hj; [|by destruct j]. by injection Hj as <-.
    + destruct i as [|i]; simpl.
      * intros [= <-]. destruct (IH 0 ln' eq_refl) as (Hne & Hnl & Hlast).
        split; [done|]. split.
        -- intros [|j] b' Hj Hb'; simpl in *; [congruence|].
           f_equal. by eapply Hnl.
        -- intros Hlen. rewrite last_cons. by rewrite Hlast by (simpl; lia).
      * intros Hi. destruct (IH (S i) ln Hi) as (? & ? & ?).
        split_and!; [done|done|]. intros. apply H1. simpl in *. lia.
Qed.

(** *** The scan *)

(** The loop reads the lines that follow the position one by one, and
    records where each ends; one unit of fuel more than there are lines
    is enough. *)
Lemma scan_loop_run fuel file p offs n :
  length (Stream.lines (drop p file)) < fuel →
  Stream.scan_loop fuel (Stream.mkMmap file p) offs n =
    Some (offs ++ Stream.ends p (Stream.lines (drop p file)),
          n + length (Stream.lines (drop p file))).
Proof.
  revert p offs n. induction fuel as [|fuel IH]; intros p offs n Hfuel; [lia|].
  cbn [Stream.scan_loop Stream.readline Stream.data Stream.pos Stream.tell].
  destruct (decide (drop p file = [])) as [Hnil|Hne].
  - rewrite Hnil. simpl. by rewrite app_nil_r, Nat.add_0_r.
  - rewrite (lines_first_line _ Hne) in Hfuel |- *.
    destruct (Stream.first_line (drop p file)) as [|b ln] eqn:Hline.
    { destruct Hne. by apply first_line_nil. }
    set (k := length (b :: ln)) in *. rewrite drop_drop in Hfuel |- *.
    cbn [length] in Hfuel. rewrite IH by lia. cbn [Stream.ends length].
    fold k. f_equal. f_equal; [by rewrite <- app_assoc|lia].
Qed.

Lemma ends_length p lns : length (Stream.ends p lns) = length lns.
Proof. revert p. induction lns as [|ln lns IH]; intros p; simpl; [done|]. by rewrite IH. Qed.

(** The [i]-th offset is the length of the first [i + 1] lines. *)
Lemma ends_lookup p lns i :
  i < length lns →
  Stream.ends p lns !! i = Some (p + length (mjoin (take (S i) lns))).
Proof.
  revert p i. induction lns as [|ln lns IH]; intros p i Hi; simpl in *; [lia|].
  destruct i as [|i]; simpl.
  - by rewrite app_nil_r.
  - rewrite IH by lia. rewrite !length_app. f_equal. lia.
Qed.

Lemma ends_bound file p :
  p ≤ length file →
  Forall (λ o, o ≤ length file) (Stream.ends p (Stream.lines (drop p file))).
Proof.
  intros Hp. apply Forall_lookup. intros i o Hi.
  assert (i < length (Stream.lines (drop p file))) as Hlt.
  { rewrite <- (ends_length p). by eapply lookup_lt_Some. }
  rewrite ends_lookup in Hi by done. injection Hi as <-.
  pose proof (join_lines (drop p file)) as Hj.
  rewrite <- (take_drop (S i) (Stream.lines (drop p file))) in Hj.
  rewrite join_app in Hj. apply (f_equal length) in Hj.
  rewrite length_app, length_drop in Hj. lia.
Qed.

(** *** The iteration *)

Lemma records_app lns lns' :
  Stream.records (lns ++ lns') = Stream.records lns ++ Stream.records lns'.
Proof. apply filter_app. Qed.

Lemma records_blank : Stream.records [[]] = [].
Proof. reflexivity. Qed.

(** On a file of ASCII bytes, with offsets within the file, the loop
    yields the lines at the offsets that are not blank, in the order of
    the offsets, and returns. *)
Lemma iter_loop_run file p offs :
  Forall (λ b, (b < 128)%Z) file →
  Forall (λ o, o ≤ length file) offs →
  Stream.iter_loop (Stream.mkMmap file p) offs =
    (Stream.records (Stream.line_at file <$> offs), None).
Proof.
  intros Hascii. revert p. induction offs as [|o offs IH]; intros p Hoffs.
  { reflexivity. }
  apply Forall_cons in Hoffs as [Ho Hoffs].
  cbn [Stream.iter_loop]. unfold Stream.seek. cbn [Stream.data].
  rewrite (proj2 (Nat.leb_le _ _) Ho).
  unfold Stream.readline. cbn [Stream.data Stream.pos].
  fold (Stream.line_at file o). rewrite fmap_cons. unfold Stream.records.
  destruct (Stream.strip (Stream.line_at file o)) as [|b l] eqn:Hstrip.
  - rewrite filter_cons_False
      by (unfold Stream.nonblank; rewrite Hstrip; intros H; by apply H).
    by apply IH.
  - rewrite filter_cons_True by (unfold Stream.nonblank; by rewrite Hstrip).
    assert (Stream.decode (Stream.line_at file o) = Some (Stream.line_at file o))
      as ->.
    { unfold Stream.decode.
      assert (Forall (λ b, (b < 128)%Z) (Stream.line_at file o)) as Hl.
      { unfold Stream.line_at. rewrite first_line_take.
        by apply Forall_take, Forall_drop. }
      assert (forallb (λ b, (b <? 128)%Z) (Stream.line_at file o) = true)
        as ->; [|done].
      apply Is_true_true, forallb_True. eapply Forall_impl; [exact Hl|].
      intros b' Hb'. by apply Is_true_true, Z.ltb_lt. }
    by rewrite IH.
Qed.

(** Without the assumption on the bytes: the loop yields the records at
    the offsets up to the first that is not ASCII, where
    [UnicodeDecodeError] ends it; no [seek] fails. *)
Lemma iter_loop_any file p offs :
  Forall (λ o, o ≤ length file) offs →
  ∃ e,
    Stream.iter_loop (Stream.mkMmap file p) offs =
      (Stream.decodable (Stream.records (Stream.line_at file <$> offs)), e) ∧
    (e = None ↔
     Forall (λ r, is_Some (Stream.decode r))
       (Stream.records (Stream.line_at file <$> offs))) ∧
    (e = None ∨ e = Some Stream.UnicodeDecodeError).
Proof.
  revert p. induction offs as [|o offs IH]; intros p Hoffs.
  { exists None. split; [reflexivity|]. split; [|by left]. done. }
  apply Forall_cons in Hoffs as [Ho Hoffs].
  cbn [Stream.iter_loop]. unfold Stream.seek. cbn [Stream.data].
  rewrite (proj2 (Nat.leb_le _ _) Ho).
  unfold Stream.readline. cbn [Stream.data Stream.pos].
  fold (Stream.line_at file o). rewrite fmap_cons. unfold Stream.records.
  destruct (Stream.strip (Stream.line_at file o)) as [|b l] eqn:Hstrip.
  - rewrite filter_cons_False
      by (unfold Stream.nonblank; rewrite Hstrip; intros H; by apply H).
    by apply IH.
  - rewrite filter_cons_True by (unfold Stream.nonblank; by rewrite Hstrip).
    cbn [Stream.decodable].
    destruct (Stream.decode (Stream.line_at file o)) as [r|] eqn:Hdec.
    + destruct (IH (o + length (Stream.line_at file o)) Hoffs)
        as (e & Hrun & He & Hcases).
      exists e. unfold Stream.records in Hrun. rewrite Hrun.
      split; [done|]. split; [|done].
      rewrite He. unfold Stream.records. rewrite Forall_cons, Hdec.
      split; [by split|by intros [_ ?]].
    + exists (Some Stream.UnicodeDecodeError). split; [done|].
      split; [|by right]. split; [done|].
      intros [Hsome _]%Forall_cons. rewrite Hdec in Hsome.
      by destruct Hsome.
Qed.

(** Read at the ends of its lines, a file gives its lines but the first,
    and the empty string at its end. *)
Lemma line_at_ends file n : ∀ p,
  length (Stream.lines (drop p file)) = S n →
  Stream.line_at file <$> Stream.ends p (Stream.lines (drop p file)) =
    tail (Stream.lines (drop p file)) ++ [[]].
Proof.
  induction n as [|n IH]; intros p Hlen.
  - assert (drop p file ≠ []) as Hne.
    { intros Hnil. by rewrite Hnil in Hlen. }
    rewrite (lines_first_line _ Hne) in Hlen |- *. rewrite drop_drop in *.
    injection Hlen as Hlen. apply length_zero_iff_nil in Hlen.
    rewrite Hlen. cbn [Stream.ends fmap list_fmap tail app].
    unfold Stream.line_at. apply lines_nil in Hlen. by rewrite Hlen.
  - assert (drop p file ≠ []) as Hne.
    { intros Hnil. by rewrite Hnil in Hlen. }
    rewrite (lines_first_line _ Hne) in Hlen |- *. rewrite drop_drop in *.
    injection Hlen as Hlen. set (q := p + _) in *.
    cbn [Stream.ends fmap list_fmap tail]. fold q.
    change (list_fmap _ _ (Stream.line_at file) ?l)
      with (Stream.line_at file <$> l).
    rewrite (IH q Hlen).
    assert (drop q file ≠ []) as Hne'.
    { intros Hnil. by rewrite Hnil in Hlen. }
    rewrite (lines_first_line _ Hne'). done.
Qed.

Lemma records_drop_blank b lns :
  Stream.records (drop b (lns ++ [[]])) = Stream.records (drop b lns).
Proof.
  rewrite drop_app, records_app.
  destruct (b - length lns) as [|[|?]]; by rewrite app_nil_r.
Qed.

Lemma records_take_drop_blank a b lns :
  Stream.records (take a (drop b (lns ++ [[]])))
  = Stream.records (take a (drop b lns)).
Proof.
  rewrite drop_app, take_app, records_app.
  destruct (b - length lns) as [|[|?]], (a - length (drop b lns)) as [|[|?]];
    by rewrite app_nil_r.
Qed.

Lemma drop_tail {A} k (l : list A) : drop k (tail l) = drop (S k) l.
Proof. destruct l; [by destruct k|done]. Qed.

Lemma slice_start_nat {A} (l : list A) (k : nat) :
  Stream.slice_start l (Some (Z.of_nat k)) = k.
Proof.
  unfold Stream.slice_start, Py.from_end.
  destruct (Z.ltb_spec (Z.of_nat k) 0); lia.
Qed.

(** The scan of a file that is not empty, with fuel for its lines. *)
Lemma scan_records_run fuel file skip :
  file ≠ [] → length (Stream.lines file) < fuel →
  Stream._scan_records fuel file skip =
    Some (inr (Stream.slice_from (Stream.ends 0 (Stream.lines file)) skip,
               length (Stream.lines file))).
Proof.
  intros Hne Hfuel. unfold Stream._scan_records, Stream.mmap_open.
  destruct file as [|b file']; [done|].
  by rewrite (scan_loop_run fuel (b :: file') 0 [] 0).
Qed.

(** The records any list of offsets gives that are ends of lines. *)
Lemma iter_run file (s : Stream.RecordStream) :
  file ≠ [] → Forall (λ b, (b < 128)%Z) file →
  Stream.source s = file →
  Forall (λ o, o ≤ length file) (Stream.offsets s) →
  Stream.__iter__ s =
    (Stream.records (Stream.line_at file <$> Stream.offsets s), None).
Proof.
  intros Hne Hascii Hsrc Hoffs. unfold Stream.__iter__, Stream.mmap_open.
  rewrite Hsrc. destruct file as [|b file']; [done|].
  by apply iter_loop_run.
Qed.

(** Construction and iteration, for [skip_header] a natural [k] ([None]
    as 0): [k + 1] lines are skipped, the [k] that follow come in the order
    of the file, and the others in the order of the shuffle. *)
Lemma stream_run shuffle fuel file rate skip k :
  (∀ offs : list nat, shuffle offs ≡ₚ offs) →
  file ≠ [] → Forall (λ b, (b < 128)%Z) file →
  length (Stream.lines file) < fuel →
  (∀ offs : list nat, Stream.slice_start offs skip = k) →
  ∃ s rest,
    Stream.__init__ shuffle fuel file rate skip = Some (inr s) ∧
    Stream.__len__ s = length (Stream.lines file) ∧
    Stream.__iter__ s =
      (Stream.records (take k (drop (S k) (Stream.lines file))) ++ rest, None) ∧
    rest ≡ₚ Stream.records (drop (S (k + k)) (Stream.lines file)).
Proof.
  intros Hshuffle Hne Hascii Hfuel Hk.
  set (L := Stream.lines file). set (E := Stream.ends 0 L).
  assert (Stream.line_at file <$> E = tail L ++ [[]]) as HM.
  { destruct (length L) as [|n] eqn:Hlen.
    - apply length_zero_iff_nil, lines_nil in Hlen. done.
    - apply (line_at_ends file n 0). by rewrite drop_0. }
  assert (Forall (λ o, o ≤ length file) E) as HE.
  { pose proof (ends_bound file 0) as H. rewrite drop_0 in H. apply H. lia. }
  unfold Stream.__init__. rewrite scan_records_run by done. fold L E.
  unfold Stream.shuffle_from, Stream.slice_from. rewrite !Hk.
  eexists. exists (Stream.records (Stream.line_at file <$> shuffle (drop k (drop k E)))).
  split; [reflexivity|]. split; [reflexivity|]. split.
  - assert (Forall (λ o, o ≤ length file)
              (take k (drop k E) ++ shuffle (drop k (drop k E)))) as Hoffs.
    { apply Forall_app_2; [by apply Forall_take, Forall_drop|].
      rewrite Hshuffle. by do 2 apply Forall_drop. }
    rewrite (iter_run file) by done.
    cbn [Stream.offsets]. f_equal.
    rewrite fmap_app, records_app. f_equal.
    rewrite fmap_take, fmap_drop, HM, records_take_drop_blank.
    by rewrite drop_tail.
  - etrans; [apply filter_Permutation, fmap_Permutation, Hshuffle|].
    fold (Stream.records (Stream.line_at file <$> drop k (drop k E))).
    rewrite !fmap_drop, HM, drop_drop, records_drop_blank.
    by rewrite drop_tail.
Qed.

(** X8.  The scan of a file that is not empty ends once the fuel exceeds
    the number of lines (the length of the file is enough).  It counts every
    line of the file, whatever [skip_header] is, and the offsets it
    collects, before [skip_header] is applied, are the positions at which
    the lines end, in order: the [i]-th is the length of the first [i + 1]
    lines.  Position 0, where the first line starts, is not among them, and
    the last one is the size of the file. *)
Theorem scan_offsets_are_line_ends fuel file skip :
  file ≠ [] → length (Stream.lines file) < fuel →
  ∃ offs,
    Stream._scan_records fuel file skip =
      Some (inr (Stream.slice_from offs skip, length (Stream.lines file))) ∧
    length offs = length (Stream.lines file) ∧
    (∀ i, i < length (Stream.lines file) →
       offs !! i = Some (length (mjoin (take (S i) (Stream.lines file))))) ∧
    (0 ∉ offs) ∧
    last offs = Some (length file).
Proof.
  intros Hne Hfuel. exists (Stream.ends 0 (Stream.lines file)).
  assert (∀ i, i < length (Stream.lines file) →
            Stream.ends 0 (Stream.lines file) !! i
            = Some (length (mjoin (take (S i) (Stream.lines file))))) as Hlook.
  { intros i Hi. by rewrite ends_lookup. }
  split_and!.
  - by apply scan_records_run.
  - apply ends_length.
  - done.
  - intros [i Hi]%list_elem_of_lookup.
    assert (i < length (Stream.lines file)) as Hlt.
    { rewrite <- (ends_length 0). by eapply lookup_lt_Some. }
    rewrite Hlook in Hi by done. injection Hi as Hi.
    destruct (Stream.lines file) as [|ln lns] eqn:HL; [simpl in Hlt; lia|].
    destruct (lines_shape file 0 ln) as [Hln _]; [by rewrite HL|].
    simpl in Hi. rewrite length_app in Hi.
    destruct ln; [done|simpl in Hi; lia].
  - rewrite last_lookup, ends_length.
    destruct (length (Stream.lines file)) as [|n] eqn:Hlen.
    { by apply length_zero_iff_nil, lines_nil in Hlen. }
    simpl. rewrite Hlook by lia.
    by rewrite take_ge, join_lines by lia.
Qed.

(** X9.  With [skip_header] left out, or 0, and a file of ASCII bytes, the
    stream never yields the first line of the file: an iteration yields, in
    the order of the shuffle, the lines after the first that are not blank,
    each once.  [len] counts all the lines, so that it exceeds the number
    of records yielded by at least one. *)
Theorem first_line_never_yielded shuffle fuel file rate skip :
  (∀ offs : list nat, shuffle offs ≡ₚ offs) →
  file ≠ [] → Forall (λ b, (b < 128)%Z) file →
  length (Stream.lines file) < fuel →
  skip = None ∨ skip = Some 0%Z →
  ∃ s out,
    Stream.__init__ shuffle fuel file rate skip = Some (inr s) ∧
    Stream.__len__ s = length (Stream.lines file) ∧
    Stream.__iter__ s = (out, None) ∧
    out ≡ₚ Stream.records (tail (Stream.lines file)) ∧
    length out < Stream.__len__ s.
Proof.
  intros Hshuffle Hne Hascii Hfuel Hskip.
  destruct (stream_run shuffle fuel file rate skip 0)
    as (s & rest & Hinit & Hlen & Hiter & Hrest); try done.
  { intros offs. by destruct Hskip as [->| ->]. }
  exists s, rest. rewrite take_0 in Hiter. simpl in Hiter, Hrest.
  assert (rest ≡ₚ Stream.records (tail (Stream.lines file))) as Hperm.
  { by destruct (Stream.lines file). }
  split_and!; try done.
  rewrite Hperm, Hlen. unfold Stream.records.
  pose proof (length_filter Stream.nonblank (tail (Stream.lines file))).
  destruct (Stream.lines file) as [|ln lns] eqn:HL; simpl in *; [|lia].
  by apply lines_nil in HL.
Qed.

(** X10.  With [skip_header] a natural [k] and a file of ASCII bytes, the
    stream leaves out the first [k + 1] lines of the file, not [k]; the
    [k] lines that follow are not shuffled, and the records among them
    are yielded first, in the order of the file; the records of the
    remaining lines follow in the order of the shuffle.  [len] still counts
    all the lines of the file. *)
Theorem skip_header_skips_one_more shuffle fuel file rate (k : nat) :
  (∀ offs : list nat, shuffle offs ≡ₚ offs) →
  file ≠ [] → Forall (λ b, (b < 128)%Z) file →
  length (Stream.lines file) < fuel →
  ∃ s rest,
    Stream.__init__ shuffle fuel file rate (Some (Z.of_nat k)) = Some (inr s) ∧
    Stream.__len__ s = length (Stream.lines file) ∧
    Stream.__iter__ s =
      (Stream.records (take k (drop (S k) (Stream.lines file))) ++ rest, None) ∧
    rest ≡ₚ Stream.records (drop (S (k + k)) (Stream.lines file)).
Proof.
  intros Hshuffle Hne Hascii Hfuel.
  apply stream_run; try done. intros offs. apply slice_start_nat.
Qed.

(** X11.  Without any assumption on the bytes of the file, and with
    [skip_header] left out or 0: an iteration goes through the lines after
    the first that are not blank, in the order of the shuffle, and yields
    them up to the first that has a byte above 127, where
    [UnicodeDecodeError] ends it.  It returns exactly when all these lines
    are ASCII (the first line of the file may be anything), and nothing
    else is raised: every [seek] is within the file. *)
Theorem non_ascii_record_ends_iteration shuffle fuel file rate skip :
  (∀ offs : list nat, shuffle offs ≡ₚ offs) →
  file ≠ [] →
  length (Stream.lines file) < fuel →
  skip = None ∨ skip = Some 0%Z →
  ∃ s recs e,
    Stream.__init__ shuffle fuel file rate skip = Some (inr s) ∧
    recs ≡ₚ Stream.records (tail (Stream.lines file)) ∧
    Stream.__iter__ s = (Stream.decodable recs, e) ∧
    (e = None ↔
     Forall (λ r, is_Some (Stream.decode r))
       (Stream.records (tail (Stream.lines file)))) ∧
    (e = None ∨ e = Some Stream.UnicodeDecodeError).
Proof.
  intros Hshuffle Hne Hfuel Hskip.
  set (L := Stream.lines file). set (E := Stream.ends 0 L).
  assert (∀ offs : list nat, Stream.slice_start offs skip = 0) as Hk.
  { intros offs. by destruct Hskip as [->| ->]. }
  assert (Stream.line_at file <$> E = tail L ++ [[]]) as HM.
  { destruct (length L) as [|n] eqn:Hlen.
    - apply length_zero_iff_nil, lines_nil in Hlen. done.
    - apply (line_at_ends file n 0). by rewrite drop_0. }
  assert (Forall (λ o, o ≤ length file) (shuffle E)) as HE.
  { rewrite Hshuffle.
    pose proof (ends_bound file 0) as H. rewrite drop_0 in H. apply H. lia. }
  unfold Stream.__init__. rewrite scan_records_run by done. fold L E.
  unfold Stream.shuffle_from, Stream.slice_from. rewrite !Hk, take_0, !drop_0.
  cbn [app].
  destruct (iter_loop_any file 0 (shuffle E) HE) as (e & Hrun & He & Hcases).
  assert (Stream.records (Stream.line_at file <$> shuffle E)
          ≡ₚ Stream.records (tail L)) as Hperm.
  { etrans; [apply filter_Permutation, fmap_Permutation, Hshuffle|].
    fold (Stream.records (Stream.line_at file <$> E)).
    by rewrite HM, records_app, records_blank, app_nil_r. }
  eexists _, (Stream.records (Stream.line_at file <$> shuffle E)), e.
  split; [reflexivity|]. split; [done|]. split.
  - unfold Stream.__iter__, Stream.mmap_open. cbn [Stream.source Stream.offsets].
    by destruct file.
  - split; [|done]. rewrite He. by rewrite Hperm.
Qed.

End StreamFacts.


(** ** Runs of the examples

    The file of the examples is [a\n\nbc\nd]: four lines, the second
    blank, the last without its newline; the shuffle reverses. *)

Section StreamExampleRuns.

Lemma scan_offsets_are_line_ends_witness :
  [97; 10; 10; 98; 99; 10; 100]%Z ≠ [] ∧
  length (Stream.lines [97; 10; 10; 98; 99; 10; 100]%Z) < 5 ∧
  Stream.lines [97; 10; 10; 98; 99; 10; 100]%Z
    = [[97; 10]; [10]; [98; 99; 10]; [100]]%Z ∧
  Stream._scan_records 5 [97; 10; 10; 98; 99; 10; 100]%Z None
    = Some (inr ([2; 3; 6; 7], 4)) ∧
  ∃ offs,
    Stream._scan_records 5 [97; 10; 10; 98; 99; 10; 100]%Z (Some 1%Z) =
      Some (inr (Stream.slice_from offs (Some 1%Z), 4)) ∧
    length offs = 4 ∧
    (∀ i, i < 4 →
       offs !! i = Some (length (mjoin (take (S i)
                           [[97; 10]; [10]; [98; 99; 10]; [100]]%Z)))) ∧
    (0 ∉ offs) ∧
    last offs = Some 7.
Proof.
  assert ([97; 10; 10; 98; 99; 10; 100]%Z ≠ []) as Hne by done.
  assert (length (Stream.lines [97; 10; 10; 98; 99; 10; 100]%Z) < 5) as Hfuel
    by (simpl; lia).
  split; [exact Hne|]. split; [exact Hfuel|]. split; [reflexivity|].
  split; [reflexivity|].
  exact (scan_offsets_are_line_ends 5 [97; 10; 10; 98; 99; 10; 100]%Z
           (Some 1%Z) Hne Hfuel).
Defined.

Lemma first_line_never_yielded_witness :
  (∀ offs : list nat, reverse offs ≡ₚ offs) ∧
  Forall (λ b, (b < 128)%Z) [97; 10; 10; 98; 99; 10; 100]%Z ∧
  Stream.records (tail (Stream.lines [97; 10; 10; 98; 99; 10; 100]%Z))
    = [[98; 99; 10]; [100]]%Z ∧
  ∃ s out,
    Stream.__init__ reverse 5 [97; 10; 10; 98; 99; 10; 100]%Z None None
      = Some (inr s) ∧
    Stream.__len__ s = 4 ∧
    Stream.__iter__ s = (out, None) ∧
    out ≡ₚ [[98; 99; 10]; [100]]%Z ∧
    length out < Stream.__len__ s.
Proof.
  assert (∀ offs : list nat, reverse offs ≡ₚ offs) as Hshuffle
    by (intros offs; apply reverse_Permutation).
  assert ([97; 10; 10; 98; 99; 10; 100]%Z ≠ []) as Hne by done.
  assert (Forall (λ b, (b < 128)%Z) [97; 10; 10; 98; 99; 10; 100]%Z) as Hascii
    by (repeat (constructor; [lia|]); constructor).
  assert (length (Stream.lines [97; 10; 10; 98; 99; 10; 100]%Z) < 5) as Hfuel
    by (simpl; lia).
  split; [exact Hshuffle|]. split; [exact Hascii|]. split; [reflexivity|].
  exact (first_line_never_yielded reverse 5 [97; 10; 10; 98; 99; 10; 100]%Z
           None None Hshuffle Hne Hascii Hfuel (or_introl eq_refl)).
Defined.

(** The file [a\nb\nc\nd\ne\nf] with [skip_header] 1: [a] and [b] are left
    out, [c] comes first, and [d], [e], [f] are shuffled. *)
Lemma skip_header_skips_one_more_witness :
  Stream.lines [97; 10; 98; 10; 99; 10; 100; 10; 101; 10; 102]%Z
    = [[97; 10]; [98; 10]; [99; 10]; [100; 10]; [101; 10]; [102]]%Z ∧
  ∃ s rest,
    Stream.__init__ reverse 7
      [97; 10; 98; 10; 99; 10; 100; 10; 101; 10; 102]%Z None (Some 1%Z)
      = Some (inr s) ∧
    Stream.__len__ s = 6 ∧
    Stream.__iter__ s = ([[99; 10]]%Z ++ rest, None) ∧
    rest ≡ₚ [[100; 10]; [101; 10]; [102]]%Z.
Proof.
  assert (∀ offs : list nat, reverse offs ≡ₚ offs) as Hshuffle
    by (intros offs; apply reverse_Permutation).
  assert ([97; 10; 98; 10; 99; 10; 100; 10; 101; 10; 102]%Z ≠ []) as Hne
    by done.
  assert (Forall (λ b, (b < 128)%Z)
            [97; 10; 98; 10; 99; 10; 100; 10; 101; 10; 102]%Z) as Hascii
    by (repeat (constructor; [lia|]); constructor).
  assert (length (Stream.lines
                    [97; 10; 98; 10; 99; 10; 100; 10; 101; 10; 102]%Z) < 7)
    as Hfuel by (simpl; lia).
  split; [reflexivity|].
  exact (skip_header_skips_one_more reverse 7
           [97; 10; 98; 10; 99; 10; 100; 10; 101; 10; 102]%Z None 1
           Hshuffle Hne Hascii Hfuel).
Defined.

(** The file [\xe9\nbc\n\xe9d\ne]: the first line is not ASCII and does
    no harm; the third ends the iteration once it is reached, here after
    [e]. *)
Lemma non_ascii_record_ends_iteration_witness :
  ∃ s recs e,
    Stream.__init__ reverse 5 [233; 10; 98; 99; 10; 233; 100; 10; 101]%Z
      None None = Some (inr s) ∧
    recs ≡ₚ [[98; 99; 10]; [233; 100; 10]; [101]]%Z ∧
    Stream.__iter__ s = (Stream.decodable recs, e) ∧
    Stream.__iter__ s = ([[101]]%Z, Some Stream.UnicodeDecodeError) ∧
    (e = None ∨ e = Some Stream.UnicodeDecodeError).
Proof.
  assert (∀ offs : list nat, reverse offs ≡ₚ offs) as Hshuffle
    by (intros offs; apply reverse_Permutation).
  assert ([233; 10; 98; 99; 10; 233; 100; 10; 101]%Z ≠ []) as Hne by done.
  assert (length (Stream.lines [233; 10; 98; 99; 10; 233; 100; 10; 101]%Z) < 5)
    as Hfuel by (simpl; lia).
  destruct (non_ascii_record_ends_iteration reverse 5
              [233; 10; 98; 99; 10; 233; 100; 10; 101]%Z None None
              Hshuffle Hne Hfuel (or_introl eq_refl))
    as (s & recs & e & Hinit & Hrecs & Hiter & He & Hcases).
  exists s, recs, e. split; [exact Hinit|]. split; [exact Hrecs|].
  split; [exact Hiter|]. split; [|exact Hcases].
  revert Hinit. intros [= <-]. reflexivity.
Defined.

End StreamExampleRuns.

(** * The progress tracker *)

Section ProgressFacts.
Context {T : Type}.
Variable elapsed : T → T → T.
Variable scaled : Z → Z → Z.
Implicit Types (self : Progress.ProgressTracker (T:=T)) (calls : list (T * bool)).

Lemma reported_app (out out' : list (Progress.line (T:=T))) :
  Progress.reported (out ++ out') = Progress.reported out ++ Progress.reported out'.
Proof. apply omap_app. Qed.

(** From a counter that is not negative and a rate that is not 0, a
    sequence of calls raises nothing, counts the calls without [done], and
    prints a progress line at the counters that the rate divides. *)
Lemma run_counts calls : ∀ self,
  Progress.rate self ≠ 0%Z → (0 ≤ Progress._counter self)%Z →
  ∃ self' out,
    Progress.run elapsed scaled calls self = Some (self', out) ∧
    Progress.rate self' = Progress.rate self ∧
    Progress.total self' = Progress.total self ∧
    Progress._timer self' = Progress._timer self ∧
    Progress._counter self' =
      (Progress._counter self
       + Z.of_nat (length (filter (λ c, c.2 = false) calls)))%Z ∧
    Progress.reported out =
      filter (λ c, (c mod Progress.rate self)%Z = 0%Z)
        (seqZ (Progress._counter self + 1)
           (Z.of_nat (length (filter (λ c, c.2 = false) calls)))).
Proof.
  induction calls as [|[now done] calls IH]; intros self Hrate Hc.
  { eexists _, _. split; [reflexivity|]. split_and!; try done. simpl. lia. }
  cbn [Progress.run]. destruct done.
  - cbn [Progress.__call__].
    destruct (IH (Progress.mkProgressTracker (Progress.rate self)
                    (Progress.total self) (Progress._counter self)
                    (Progress._timer self)
                    (Some (elapsed now (Progress._timer self)))))
      as (self' & out & Hrun & Hr & Ht & Htm & Hcnt & Hrep); [done|done|].
    rewrite Hrun. eexists _, _. split; [reflexivity|].
    rewrite filter_cons_False by (simpl; congruence).
    split_and!; try done.
  - unfold Progress.__call__. cbn [Progress.rate Progress.total Progress._timer].
    set (c := (Progress._counter self + 1)%Z).
    set (self1 := Progress.mkProgressTracker _ _ _ _ _).
    rewrite (proj2 (Z.eqb_neq _ _) Hrate).
    rewrite (proj2 (Z.eqb_neq c 0)) by lia. rewrite orb_false_r.
    destruct (IH self1) as (self' & out & Hrun & Hr & Ht & Htm & Hcnt & Hrep);
      [done|simpl; lia|].
    rewrite filter_cons_True by done. cbn [length].
    rewrite seqZ_cons by lia.
    replace (Z.pred (Z.of_nat (S (length (filter (λ c, c.2 = false) calls)))))
      with (Z.of_nat (length (filter (λ c, c.2 = false) calls))) by lia.
    assert (Progress._counter self' =
            (Progress._counter self
             + Z.of_nat (S (length (filter (λ c, c.2 = false) calls))))%Z)
      as Hcnt' by (rewrite Hcnt; simpl; lia).
    replace (Z.succ (Progress._counter self + 1))
      with (Progress._counter self1 + 1)%Z by (simpl; lia).
    destruct (Z.eqb_spec (c mod Progress.rate self) 0) as [Hdiv|Hdiv].
    + rewrite filter_cons_True by done.
      destruct (Progress.total self) as [[| |]|]; rewrite Hrun;
        eexists _, _; (split; [reflexivity|]);
        split_and!; try done; rewrite reported_app; simpl; by rewrite Hrep.
    + rewrite filter_cons_False by done. rewrite Hrun.
      eexists _, _. split; [reflexivity|]. split_and!; try done.
Qed.

(** X12.  A tracker as constructed raises nothing, whatever calls follow;
    [len] is the number of calls made without [done]; and a progress line
    is printed exactly at the samples whose number the rate divides, so
    that the first sample is reported only when the rate is 1 or -1: the
    test [_counter == 0] of line 108 never holds. *)
Theorem progress_lines_every_rate now rate total calls :
  let n := length (filter (λ c, c.2 = false) calls) in
  ∃ self out,
    Progress.run elapsed scaled calls (Progress.__init__ now rate total)
      = Some (self, out) ∧
    Progress.__len__ self = Z.of_nat n ∧
    Progress.reported out =
      filter (λ c, (c mod Progress.rate (Progress.__init__ now rate total))%Z
                   = 0%Z)
        (seqZ 1 (Z.of_nat n)) ∧
    (1%Z ∈ Progress.reported out →
     Progress.rate self = 1%Z ∨ Progress.rate self = (-1)%Z).
Proof.
  intros n.
  destruct (run_counts calls (Progress.__init__ now rate total))
    as (self & out & Hrun & Hr & _ & _ & Hcnt & Hrep).
  { simpl. by destruct rate as [[| |]|]. }
  { done. }
  exists self, out. split_and!; try done.
  rewrite Hrep, Hr. intros [Hdiv _]%list_elem_of_filter.
  set (r := Progress.rate (Progress.__init__ now rate total)) in *.
  clearbody r.
  destruct (Z.mod_divide 1 r) as [Hd _]; [by intros ->|].
  specialize (Hd Hdiv). apply Z.divide_1_r in Hd. lia.
Qed.

(** X13.  The bar of line 111 has the width of the class, 40 characters,
    exactly when the part done is from 1 to 40.  When it is 0 (fewer than
    one fortieth of the total) the bar has 41 characters, the arrow coming
    on top of the 40 dashes; below 0 it grows by one character more for
    each unit; above 40 (the counter beyond the total) it has as many
    characters as the part done. *)
Theorem bar_width (progress : Z) :
  Z.of_nat (length (Progress.bar progress)) =
    if decide (1 ≤ progress ≤ 40)%Z then 40%Z
    else if decide (progress ≤ 0)%Z then (41 - progress)%Z
    else progress.
Proof.
  unfold Progress.bar, Progress.times, Progress.progress_bar_width.
  destruct (Z.eqb_spec progress 40) as [->|Hp].
  - reflexivity.
  - rewrite !length_app, !length_replicate. cbn [length].
    repeat case_decide; lia.
Qed.

End ProgressFacts.
